(** * serverless-offline-sqs-local: the plugin of [src/index.js] in Rocq

    The plugin is one JavaScript class, [ServerlessOfflineSQS].  Its
    methods are embedded as Rocq functions over a small model of the
    JavaScript values a YAML manifest yields.  Synchronous code that may
    throw returns a [result]; asynchronous code runs in the monad [M],
    which threads the chronological trace of the calls the plugin makes
    (backend calls, handler invocations, log lines) and in which a
    thrown error is a rejected promise.  The backend and the handler
    bridge are collaborators: they are oracles that answer a call from
    the history so far. *)

From Stdlib Require Import String Ascii List ZArith Lia Bool DecimalString.
Import ListNotations.
Local Open Scope list_scope.
Local Open Scope string_scope.
Local Set Warnings "-register-all".

(** ** JavaScript values *)

Module Js.

(** The values a manifest, a backend answer or a handler result can
    hold.  Numbers are the integer-valued ones; an object lists its own
    enumerable properties in the order [Object.keys] reports them, and
    a key occurs once. *)
Inductive JsVal : Type :=
| JUndefined
| JNull
| JBool (b : bool)
| JNum (n : Z)
| JStr (s : string)
| JArr (elems : list JsVal)
| JObj (props : list (string * JsVal)).

(** What can be thrown: the runtime's own [TypeError] (property access
    on [undefined] or [null], destructuring a value that is not
    iterable) and [new Error(message)]. *)
Inductive JsError : Type :=
| TypeError
| Error (message : string).

(** A synchronous computation: a value or a thrown error.  The same
    type is the state of a settled promise. *)
Inductive result (A : Type) : Type :=
| Ok (a : A)
| Throw (e : JsError).
Arguments Ok {A} a.
Arguments Throw {A} e.

Definition bind {A B} (r : result A) (k : A -> result B) : result B :=
  match r with
  | Ok a => k a
  | Throw e => Throw e
  end.

(** [typeof v] *)
Definition typeof (v : JsVal) : string :=
  match v with
  | JUndefined => "undefined"
  | JNull => "object"
  | JBool _ => "boolean"
  | JNum _ => "number"
  | JStr _ => "string"
  | JArr _ => "object"
  | JObj _ => "object"
  end.

(** The truthiness an [if], [&&], [||] or [!] tests. *)
Definition truthy (v : JsVal) : bool :=
  match v with
  | JUndefined => false
  | JNull => false
  | JBool b => b
  | JNum n => negb (Z.eqb n 0)
  | JStr s => negb (s =? EmptyString)
  | JArr _ => true
  | JObj _ => true
  end.

(** [a || b] *)
Definition or_else (a b : JsVal) : JsVal := if truthy a then a else b.

(** [Number.MAX_SAFE_INTEGER] and [Number.isSafeInteger(n)] of an
    integer: up to this magnitude a number holds every integer
    exactly. *)
Definition MAX_SAFE_INTEGER : Z := 2 ^ 53 - 1.

Definition isSafeInteger (n : Z) : bool :=
  ((- MAX_SAFE_INTEGER <=? n) && (n <=? MAX_SAFE_INTEGER))%Z%bool.

(** [n.toString()] of an integer-valued number, and the key of an
    array index.  The decimal digits are what [toString] prints for a
    safe integer; past [MAX_SAFE_INTEGER] it prints the shortest
    decimal that reads back as the same number, and from [1e21] on an
    exponent ([1e+21]), which these digits are not. *)
Definition number_toString (n : Z) : string :=
  NilZero.string_of_int (Z.to_int n).

Definition index_key (i : nat) : string :=
  NilZero.string_of_uint (Nat.to_uint i).

(** The string a value is converted to when it is used as a property
    key. *)
Fixpoint ToString (v : JsVal) : string :=
  match v with
  | JUndefined => "undefined"
  | JNull => "null"
  | JBool b => if b then "true" else "false"
  | JNum n => number_toString n
  | JStr s => s
  | JArr elems =>
      String.concat ","
        (map (fun x => match x with
                       | JUndefined => EmptyString
                       | JNull => EmptyString
                       | _ => ToString x
                       end) elems)
  | JObj _ => "[object Object]"
  end.

(** Own properties of an object, by key. *)
Fixpoint assoc {V} (k : string) (l : list (string * V)) : option V :=
  match l with
  | [] => None
  | (k', v) :: rest => if k =? k' then Some v else assoc k rest
  end.

(** [obj[k] = v]: overwrite in place, or append a new property. *)
Fixpoint assoc_set {V} (k : string) (v : V) (l : list (string * V))
  : list (string * V) :=
  match l with
  | [] => [(k, v)]
  | (k', v') :: rest =>
      if k =? k' then (k', v) :: rest else (k', v') :: assoc_set k v rest
  end.

Fixpoint elem_at (elems : list JsVal) (i : nat) (k : string) : JsVal :=
  match elems with
  | [] => JUndefined
  | x :: rest => if k =? index_key i then x else elem_at rest (S i) k
  end.

Fixpoint char_at (s : string) (i : nat) (k : string) : JsVal :=
  match s with
  | EmptyString => JUndefined
  | String c rest =>
      if k =? index_key i then JStr (String c EmptyString)
      else char_at rest (S i) k
  end.

(** [v[k]] and [v.k].  Reading a property of [undefined] or [null]
    throws; a primitive has no own property but a string's characters
    and [length]; properties inherited from a prototype are methods,
    which the plugin never reads. *)
Definition get (v : JsVal) (k : string) : result JsVal :=
  match v with
  | JUndefined => Throw TypeError
  | JNull => Throw TypeError
  | JBool _ => Ok JUndefined
  | JNum _ => Ok JUndefined
  | JStr s =>
      if k =? "length" then Ok (JNum (Z.of_nat (String.length s)))
      else Ok (char_at s 0 k)
  | JArr elems =>
      if k =? "length" then Ok (JNum (Z.of_nat (List.length elems)))
      else Ok (elem_at elems 0 k)
  | JObj props =>
      match assoc k props with
      | Some x => Ok x
      | None => Ok JUndefined
      end
  end.

(** [Object.keys(v)] *)
Definition keys (v : JsVal) : result (list string) :=
  match v with
  | JUndefined => Throw TypeError
  | JNull => Throw TypeError
  | JBool _ => Ok []
  | JNum _ => Ok []
  | JStr s => Ok (map index_key (seq 0 (String.length s)))
  | JArr elems => Ok (map index_key (seq 0 (List.length elems)))
  | JObj props => Ok (map fst props)
  end.

(** [const [x] = v]: the first element an iteration of [v] yields. *)
Definition first_of (v : JsVal) : result JsVal :=
  match v with
  | JArr [] => Ok JUndefined
  | JArr (x :: _) => Ok x
  | JStr EmptyString => Ok JUndefined
  | JStr (String c _) => Ok (JStr (String c EmptyString))
  | _ => Throw TypeError
  end.

(** [s.split(sep)] for a one-character separator. *)
Fixpoint split (sep : ascii) (s : string) : list string :=
  match s with
  | EmptyString => [EmptyString]
  | String c rest =>
      if Ascii.eqb c sep then EmptyString :: split sep rest
      else match split sep rest with
           | [] => [String c EmptyString]
           | field :: fields => String c field :: fields
           end
  end.

(** *** [JSON.stringify] *)

Definition hex_digit (n : nat) : ascii :=
  match n with
  | 0 => "0" | 1 => "1" | 2 => "2" | 3 => "3" | 4 => "4"
  | 5 => "5" | 6 => "6" | 7 => "7" | 8 => "8" | 9 => "9"
  | 10 => "a" | 11 => "b" | 12 => "c" | 13 => "d" | 14 => "e"
  | _ => "f"
  end%char.

Definition escape_char (c : ascii) : string :=
  let n := nat_of_ascii c in
  if Nat.eqb n 34 then "\" ++ String c EmptyString
  else if Nat.eqb n 92 then "\\"
  else if Nat.eqb n 8 then "\b"
  else if Nat.eqb n 9 then "\t"
  else if Nat.eqb n 10 then "\n"
  else if Nat.eqb n 12 then "\f"
  else if Nat.eqb n 13 then "\r"
  else if Nat.ltb n 32 then
    "\u00" ++ String (hex_digit (n / 16)) (String (hex_digit (n mod 16)) EmptyString)
  else String c EmptyString.

Fixpoint escape (s : string) : string :=
  match s with
  | EmptyString => EmptyString
  | String c rest => escape_char c ++ escape rest
  end.

Definition quote (s : string) : string :=
  String (ascii_of_nat 34) (escape s ++ String (ascii_of_nat 34) EmptyString).

(** [None] is the [undefined] that [JSON.stringify(undefined)] returns;
    an [undefined] property is left out, an [undefined] element becomes
    [null]. *)
Fixpoint JSON_stringify (v : JsVal) : option string :=
  match v with
  | JUndefined => None
  | JNull => Some "null"
  | JBool b => Some (if b then "true" else "false")
  | JNum n => Some (number_toString n)
  | JStr s => Some (quote s)
  | JArr elems =>
      Some ("[" ++ String.concat ","
              (map (fun x => match JSON_stringify x with
                             | Some j => j
                             | None => "null"
                             end) elems) ++ "]")
  | JObj props =>
      Some ("{" ++ String.concat ","
              (flat_map (fun p => match JSON_stringify (snd p) with
                                  | Some j => [quote (fst p) ++ ":" ++ j]
                                  | None => []
                                  end) props) ++ "}")
  end.

(** The value of the expression [JSON.stringify(v)]. *)
Definition stringify (v : JsVal) : JsVal :=
  match JSON_stringify v with
  | Some json => JStr json
  | None => JUndefined
  end.

(** Every number in [v], at any depth, is a safe integer. *)
Fixpoint safe_numbers (v : JsVal) : bool :=
  match v with
  | JNum n => isSafeInteger n
  | JArr elems => forallb safe_numbers elems
  | JObj props => forallb (fun p => safe_numbers (snd p)) props
  | _ => true
  end.

End Js.

Import Js.

Declare Scope js_scope.
Delimit Scope js_scope with js.
Notation "x <- r ; k" := (Js.bind r (fun x => k))
  (at level 61, r at next level, right associativity) : js_scope.
Local Open Scope js_scope.

(** [v && v[k]]: the property when [v] is truthy, [v] itself when it is
    falsy.  A truthy value is neither [undefined] nor [null], so the
    read cannot throw. *)
Definition and_get (v : JsVal) (k : string) : JsVal :=
  if truthy v then
    match get v k with
    | Ok x => x
    | Throw _ => JUndefined
    end
  else v.

(** lodash/fp [forEach(iteratee, collection)] over an array, for an
    iteratee that updates the state [S] it closes over and may throw. *)
Fixpoint forEach {S A} (iteratee : S -> A -> result S) (collection : list A)
  (s : S) : result S :=
  match collection with
  | [] => Ok s
  | x :: rest => s' <- iteratee s x ; forEach iteratee rest s'
  end.

(** [collection.map(f)] for a callback that may throw. *)
Fixpoint map_result {A B} (f : A -> result B) (l : list A) : result (list B) :=
  match l with
  | [] => Ok []
  | x :: rest => y <- f x ; ys <- map_result f rest ; Ok (y :: ys)
  end.

(** ** Messages, events and backend requests *)

Module Message.
Record t : Type := {
  MessageId : JsVal;
  ReceiptHandle : JsVal;
  Body : JsVal;
  Attributes : JsVal;
  MessageAttributes : JsVal;
  MD5OfBody : JsVal
}.
End Message.

(** One element of [event.Records]. *)
Record SQSRecord : Type := {
  messageId : JsVal;
  receiptHandle : JsVal;
  body : JsVal;
  attributes : JsVal;
  messageAttributes : JsVal;
  md5OfBody : JsVal;
  eventSource : JsVal;
  eventSourceARN : JsVal;
  awsRegion : JsVal
}.

Record SQSEvent : Type := { Records : list SQSRecord }.

Module CreateQueue.
Record request : Type := {
  QueueName : JsVal;
  Attributes : list (string * JsVal)
}.
End CreateQueue.

Module GetQueueUrl.
Record response : Type := { QueueUrl : JsVal }.
End GetQueueUrl.

Module ReceiveMessage.
Record request : Type := {
  QueueUrl : JsVal;
  MaxNumberOfMessages : JsVal;
  WaitTimeSeconds : Z
}.
(** [Messages] is [None] when the answer has no such field. *)
Record response : Type := { Messages : option (list Message.t) }.
End ReceiveMessage.

Module DeleteMessageBatch.
Record entry : Type := { Id : JsVal; ReceiptHandle : JsVal }.
Record request : Type := { Entries : list entry; QueueUrl : JsVal }.
End DeleteMessageBatch.

(** ** The trace of what the plugin does *)

Inductive LogLine : Type :=
| CreatingQueues                                  (* Creating Offline SQS Queues. *)
| CreatingQueue (resourceName : string)           (* Creating Queue <name> *)
| StartingKinesis                                 (* Starting Offline Kinesis. *)
| SqsFor (functionName : string)                  (* SQS for <function>: *)
| QueueLine (queueName : JsVal)                   (* <queueName> *)
| StreamLine (streamName : JsVal) (functionName : string)
| BlankLine.                                      (* printBlankLine() *)

Inductive Event : Type :=
| Log (line : LogLine)
| ConsoleLog (error : JsError)
| CreateQueueCall (params : CreateQueue.request)
| GetQueueUrlCall (QueueName : JsVal)
| ReceiveMessageCall (params : ReceiveMessage.request)
| DeleteMessageBatchCall (params : DeleteMessageBatch.request)
| HandlerCall (functionName : string) (event : SQSEvent)
  (** the lambda context's callback fires: it logs the tick or cross
      with the data and calls [cb(err, data)] *)
| Completion (err : option JsError) (data : JsVal)
  (** [this.createQueueReadable(functionName, queueEvent)] is called *)
| PollerStarted (functionName : string) (queueEvent : JsVal).

Definition Trace : Type := list Event.

(** The arguments [(err, data)] a node-style callback is called with;
    [None] is a falsy [err]. *)
Definition Callback (A : Type) : Type := (option JsError * A)%type.

(** [client.createQueue(params).promise()]: the call throws, or returns
    a promise that settles later. *)
Inductive PromiseCall (A : Type) : Type :=
| Throws (error : JsError)
| Returns (promise : result A).
Arguments Throws {A} error.
Arguments Returns {A} promise.

(** What the handler the bridge created does with [(event, context)]. *)
Inductive Invocation : Type :=
| HandlerThrows (error : JsError)
  (** [handler.length < 3]: the handler returns a promise *)
| ReturnsPromise (promise : result JsVal)
  (** otherwise it is given [lambdaContext.done] and calls it *)
| CallsDone (err : option JsError) (data : JsVal).

(** The collaborators.  Each answers from the history before the call;
    the SQS operations also see the client they are called on. *)
Record World : Type := {
  sqs_createQueue : JsVal -> Trace -> CreateQueue.request -> PromiseCall JsVal;
  sqs_getQueueUrl : JsVal -> Trace -> JsVal -> Callback GetQueueUrl.response;
  sqs_receiveMessage :
    JsVal -> Trace -> ReceiveMessage.request -> Callback ReceiveMessage.response;
  sqs_deleteMessageBatch :
    JsVal -> Trace -> DeleteMessageBatch.request -> Callback JsVal;
  handler : Trace -> string -> SQSEvent -> Invocation
}.

(** ** Asynchronous code *)

(** An [async] function body from the trace so far: the settled state of
    its promise and the trace it leaves. *)
Definition M (A : Type) : Type := Trace -> result A * Trace.

Definition ret {A} (a : A) : M A := fun t => (Ok a, t).

Definition throw {A} (e : JsError) : M A := fun t => (Throw e, t).

(** [await]: a rejection is rethrown and ends the body. *)
Definition bindM {A B} (m : M A) (k : A -> M B) : M B :=
  fun t =>
    match m t with
    | (Ok a, t') => k a t'
    | (Throw e, t') => (Throw e, t')
    end.

Definition lift {A} (r : result A) : M A := fun t => (r, t).

Definition emit (e : Event) : M unit := fun t => (Ok tt, t ++ [e])%list.

(** A call to a collaborator: it is recorded, and answered from the
    history before it. *)
Definition call {A} (e : Event) (oracle : Trace -> A) : M A :=
  fun t => (Ok (oracle t), t ++ [e])%list.

Declare Scope async_scope.
Delimit Scope async_scope with async.
Notation "x <~ m ; k" := (bindM m (fun x => k))
  (at level 61, m at next level, right associativity) : async_scope.
Notation "m ;; k" := (bindM m (fun _ => k))
  (at level 61, right associativity) : async_scope.
Local Open Scope async_scope.

(** [fromCallback(fun)] (lines 8-14): the promise rejects when the
    callback gets a truthy [err] (or [fun] throws), and resolves with
    [data] otherwise. *)
Definition fromCallback {A} (fun_ : M (Callback A)) : M A :=
  args <~ fun_ ;
  match fst args with
  | Some err => throw err
  | None => ret (snd args)
  end.

(** ** The plugin class *)

(** [getConfig(service, pluginName)] (lines 18-20) *)
Definition getConfig (service : JsVal) (pluginName : string) : JsVal :=
  or_else (and_get (and_get service "custom") pluginName) (JObj []).

(** [extractQueueNameFromARN(arn)] (lines 22-25): the sixth element of
    [arn.split(':')], [undefined] when there are fewer. *)
Definition extractQueueNameFromARN (arn : JsVal) : result JsVal :=
  match arn with
  | JStr s =>
      match nth_error (split ":" s) 5 with
      | Some QueueName => Ok (JStr QueueName)
      | None => Ok JUndefined
      end
  | _ => Throw TypeError
  end.

(** The fields of [this] the methods read. *)
Record ServerlessOfflineSQS : Type := {
  service : JsVal;
  options : JsVal;
  config : JsVal
}.

(** [constructor(serverless, options)] (lines 28-42), from
    [serverless.service] and [options]. *)
Definition constructor (serverless_service opts : JsVal) : ServerlessOfflineSQS :=
  {| service := serverless_service;
     options := opts;
     config := getConfig serverless_service "serverless-offline-sqs-local" |}.

Definition QueueName_not_found : JsError := Error "QueueName not found".

Section Methods.

Variable this : ServerlessOfflineSQS.

(** The [awsConfig] of [getClient] (lines 45-50): [Object.assign] of
    the plugin's configuration onto an object holding the region. *)
Definition awsConfig : result JsVal :=
  optRegion <- get (options this) "region" ;
  region <- (if truthy optRegion then Ok optRegion
             else provider <- get (service this) "provider" ;
                  provRegion <- get provider "region" ;
                  Ok (or_else provRegion (JStr "us-west-2"))) ;
  sources <- keys (config this) ;
  assigned <- forEach (fun target k => v <- get (config this) k ;
                                       Ok (assoc_set k v target))
                sources [("region", region)] ;
  Ok (JObj assigned).

(** [getClient()] (lines 44-52).  The client [new SQS(awsConfig)] is
    taken to be the configuration it is constructed from: the SDK's
    constructor is not part of the model, which says nothing of a
    configuration the SDK refuses. *)
Definition getClient : result JsVal := awsConfig.

(** [getQueueName(queueEvent)] (lines 54-75) *)
Definition getQueueName (queueEvent : JsVal) : result JsVal :=
  if typeof queueEvent =? "string" then extractQueueNameFromARN queueEvent
  else
    arn <- get queueEvent "arn" ;
    if typeof arn =? "string" then extractQueueNameFromARN arn
    else
      queueName <- get queueEvent "queueName" ;
      if typeof queueName =? "string" then Ok queueName
      else
        GetAtt <- get arn "Fn::GetAtt" ;
        if truthy GetAtt then
          ResourceName <- first_of GetAtt ;
          let Properties :=
            and_get (and_get (and_get (and_get (service this) "resources")
                                "Resources") (ToString ResourceName))
              "Properties" in
          if truthy Properties then
            QueueName <- get Properties "QueueName" ;
            if typeof QueueName =? "string" then Ok QueueName
            else Throw QueueName_not_found
          else Throw QueueName_not_found
        else Throw QueueName_not_found.

(** The [event] constant of [eventHandler] (lines 97-118). *)
Definition eventHandler_event (queueEvent : JsVal) (messages : list Message.t)
  : result SQSEvent :=
  records <- map_result
    (fun m =>
       arn <- get queueEvent "arn" ;
       Ok {| messageId := Message.MessageId m;
             receiptHandle := Message.ReceiptHandle m;
             body := Message.Body m;
             attributes := Message.Attributes m;
             messageAttributes := Message.MessageAttributes m;
             md5OfBody := Message.MD5OfBody m;
             eventSource := JStr "aws:sqs";
             eventSourceARN := arn;
             awsRegion := JStr "us-west-2" |})
    messages ;
  Ok {| Records := records |}.

(** The attribute of a nested mapping (lines 142-154): its string and
    numeric leaves as strings, any other leaf replaced by element 0 of
    its [Fn::GetAtt], the whole serialized. *)
Definition nested_attribute (nested : JsVal) : result JsVal :=
  attrs <- keys nested ;
  built <- forEach
    (fun acc attr =>
       leaf <- get nested attr ;
       match leaf with
       | JStr s => Ok (assoc_set attr (JStr s) acc)
       | JNum n => Ok (assoc_set attr (JStr (number_toString n)) acc)
       | _ => GetAtt <- get leaf "Fn::GetAtt" ;
              target <- get GetAtt "0" ;
              Ok (assoc_set attr target acc)
       end)
    attrs [] ;
  Ok (stringify (JObj built)).

(** The [params] of [createInitialQueue] (lines 130-157). *)
Definition createInitialQueue_params (queue : JsVal) : result CreateQueue.request :=
  QueueName <- get queue "QueueName" ;
  attributes <- keys queue ;
  Attributes <- forEach
    (fun acc attribute =>
       if attribute =? "QueueName" then Ok acc
       else
         value <- get queue attribute ;
         match value with
         | JStr s => Ok (assoc_set attribute (JStr s) acc)
         | JNum n => Ok (assoc_set attribute (JStr (number_toString n)) acc)
         | _ => json <- nested_attribute value ;
                Ok (assoc_set attribute json acc)
         end)
    attributes [] ;
  Ok {| CreateQueue.QueueName := QueueName; CreateQueue.Attributes := Attributes |}.

Variable world : World.

(** [lambdaContext.done(err, data)]: the callback given to
    [createLambdaContext] (lines 90-95). *)
Definition done (err : option JsError) (data : JsVal) : M (Callback JsVal) :=
  emit (Completion err data) ;;
  ret (err, data).

(** [eventHandler(queueEvent, functionName, messages, cb)] (lines 77-125);
    the result is what [cb] is called with.  Looking the function up and
    creating its handler and context belong to the bridge. *)
Definition eventHandler (queueEvent : JsVal) (functionName : string)
  (messages : option (list Message.t)) : M (Callback JsVal) :=
  match messages with
  | None => ret (None, JUndefined)
  | Some messages =>
      streamName <~ lift (getQueueName queueEvent) ;
      emit (Log (StreamLine streamName functionName)) ;;
      event <~ lift (eventHandler_event queueEvent messages) ;
      run <~ call (HandlerCall functionName event)
               (fun t => handler world t functionName event) ;
      match run with
      | HandlerThrows error => throw error
      | ReturnsPromise (Ok res) => done None res
      | ReturnsPromise (Throw error) => done (Some error) JUndefined
      | CallsDone err data => done err data
      end
  end.

(** [createInitialQueue(queue)] (lines 127-164).  The promise of
    [createQueue] is returned from inside [try] without being awaited,
    so [catch] sees only what the call itself throws. *)
Definition createInitialQueue (queue : JsVal) : M JsVal :=
  client <~ lift getClient ;
  params <~ lift (createInitialQueue_params queue) ;
  attempt <~ call (CreateQueueCall params)
               (fun t => sqs_createQueue world client t params) ;
  match attempt with
  | Throws error => emit (ConsoleLog error) ;; ret JUndefined
  | Returns promise => lift promise
  end.

Section Poller.

Variable functionName : string.
Variable queueEvent : JsVal.
Variable client : JsVal.
Variable QueueUrl : JsVal.

Definition deleteEntry (m : Message.t) : DeleteMessageBatch.entry :=
  {| DeleteMessageBatch.Id := Message.MessageId m;
     DeleteMessageBatch.ReceiptHandle := Message.ReceiptHandle m |}.

(** [next] of [createQueueReadable] (lines 181-211).  The loop has no
    exit of its own: [fuel] bounds the iterations that are observed, and
    [Ok tt] with the fuel used up is a loop that is still running; a
    rejection is the loop ending. *)
Fixpoint next (fuel : nat) : M unit :=
  match fuel with
  | O => ret tt
  | S fuel' =>
      batchSize <~ lift (get queueEvent "batchSize") ;
      let receive :=
        {| ReceiveMessage.QueueUrl := QueueUrl;
           ReceiveMessage.MaxNumberOfMessages := batchSize;
           ReceiveMessage.WaitTimeSeconds := 1 |} in
      data <~ fromCallback
                (call (ReceiveMessageCall receive)
                   (fun t => sqs_receiveMessage world client t receive)) ;
      match ReceiveMessage.Messages data with
      | Some Messages =>
          fromCallback (eventHandler queueEvent functionName (Some Messages)) ;;
          let batch :=
            {| DeleteMessageBatch.Entries := map deleteEntry Messages;
               DeleteMessageBatch.QueueUrl := QueueUrl |} in
          fromCallback
            (call (DeleteMessageBatchCall batch)
               (fun t => sqs_deleteMessageBatch world client t batch) ;;
             ret (None, tt))
      | None => ret tt
      end ;;
      next fuel'
  end.

End Poller.

(** [createQueueReadable(functionName, queueEvent)] (lines 166-214) *)
Definition createQueueReadable (fuel : nat) (functionName : string)
  (queueEvent : JsVal) : M unit :=
  client <~ lift getClient ;
  queueName <~ lift (getQueueName queueEvent) ;
  emit (Log (QueueLine queueName)) ;;
  found <~ fromCallback
             (call (GetQueueUrlCall queueName)
                (fun t => sqs_getQueueUrl world client t queueName)) ;
  next functionName queueEvent client (GetQueueUrl.QueueUrl found) fuel.

(** [Promise.all(promises)] over calls of async functions that were made
    in this order: their bodies run in that order, and the result
    rejects when one of them does.  With several rejections the first in
    the list stands for the first in time. *)
Fixpoint settle_all {A} (promises : list (M A)) (t : Trace)
  : list (result A) * Trace :=
  match promises with
  | [] => ([], t)
  | p :: rest =>
      let (r, t') := p t in
      let (rs, t'') := settle_all rest t' in
      (r :: rs, t'')
  end.

Fixpoint all_fulfilled {A} (settled : list (result A)) : result (list A) :=
  match settled with
  | [] => Ok []
  | r :: rest => a <- r ; others <- all_fulfilled rest ; Ok (a :: others)
  end.

Definition Promise_all {A} (promises : list (M A)) : M (list A) :=
  fun t => let (settled, t') := settle_all promises t in
           (all_fulfilled settled, t').

(** [forEach] with an iteratee that has effects. *)
Fixpoint forEachM {S A} (iteratee : S -> A -> M S) (collection : list A)
  (s : S) : M S :=
  match collection with
  | [] => ret s
  | x :: rest => s' <~ iteratee s x ; forEachM iteratee rest s'
  end.

(** The own enumerable properties lodash iterates over; none for
    [undefined], [null], a number or a boolean. *)
Definition entries (v : JsVal) : list (string * JsVal) :=
  match v with
  | JObj props => props
  | JArr elems => combine (map index_key (seq 0 (List.length elems))) elems
  | JStr s =>
      combine (map index_key (seq 0 (String.length s)))
        (map (fun c => JStr (String c EmptyString)) (list_ascii_of_string s))
  | _ => []
  end.

(** lodash/fp [get(key)]: [undefined] instead of a throw. *)
Definition lodash_get (k : string) (v : JsVal) : JsVal :=
  match get v k with
  | Ok x => x
  | Throw _ => JUndefined
  end.

(** lodash/fp [has(key)]: an own property. *)
Definition has (k : string) (v : JsVal) : bool :=
  match assoc k (entries v) with
  | Some _ => true
  | None =>
      match v with
      | JArr _ => k =? "length"
      | JStr _ => k =? "length"
      | _ => false
      end
  end.

(** [v === s] for a string literal [s]. *)
Definition is_string (s : string) (v : JsVal) : bool :=
  match v with
  | JStr s' => s' =? s
  | _ => false
  end.

(** [offlineStartInit()] (lines 216-256).  The pollers it starts are not
    awaited: each start is recorded, and [createQueueReadable] is what
    runs from there. *)
Definition offlineStartInit : M unit :=
  emit (Log CreatingQueues) ;;
  (let Resources := and_get (and_get (service this) "resources") "Resources" in
   if truthy Resources then
     resouces <~ lift (keys Resources) ;
     promises <~ forEachM
       (fun promises resourceName =>
          resource <~ lift (get Resources resourceName) ;
          type <~ lift (get resource "Type") ;
          if is_string "AWS::SQS::Queue" type then
            emit (Log (CreatingQueue resourceName)) ;;
            Properties <~ lift (get resource "Properties") ;
            ret (promises ++ [createInitialQueue Properties])%list
          else ret promises)
       resouces [] ;
     Promise_all promises ;;
     emit (Log BlankLine)
   else ret tt) ;;
  emit (Log StartingKinesis) ;;
  functions <~ lift (get (service this) "functions") ;
  forEachM
    (fun _ entry =>
       let functionName := fst entry in
       let queues :=
         map (lodash_get "sqs")
           (filter (has "sqs") (map snd (entries (lodash_get "events" (snd entry))))) in
       let isEmpty := match queues with [] => true | _ => false end in
       (if negb isEmpty
        then emit (Log BlankLine) ;; emit (Log (SqsFor functionName))
        else ret tt) ;;
       forEachM (fun _ queueEvent => emit (PollerStarted functionName queueEvent))
         queues tt ;;
       (if negb isEmpty then emit (Log BlankLine) else ret tt))
    (entries functions) tt.

End Methods.

(** ** The resource catalog, read as the manifest presents it *)

(** [Resources[ResourceName].Properties.QueueName] of the service, when
    every step of the path exists and the name is a string. *)
Definition catalog_QueueName (svc : JsVal) (ResourceName : string) : option string :=
  match (resources <- get svc "resources" ;
         Resources <- get resources "Resources" ;
         resource <- get Resources ResourceName ;
         Properties <- get resource "Properties" ;
         get Properties "QueueName") with
  | Ok (JStr name) => Some name
  | _ => None
  end.

(** No character of the string is a colon. *)
Definition colon_free (s : string) : Prop :=
  ~ In ":"%char (list_ascii_of_string s).

(** The value [extractQueueNameFromARN] destructures out of the fields
    of an identifier. *)
Definition sixth_field (fields : list string) : JsVal :=
  match nth_error fields 5 with
  | Some field => JStr field
  | None => JUndefined
  end.

(** ** Reading a trace *)

Definition receives (t : Trace) : list ReceiveMessage.request :=
  flat_map (fun e => match e with ReceiveMessageCall p => [p] | _ => [] end) t.

Definition invocations (t : Trace) : list SQSEvent :=
  flat_map (fun e => match e with HandlerCall _ event => [event] | _ => [] end) t.

Definition completions (t : Trace) : list (option JsError) :=
  flat_map (fun e => match e with Completion err _ => [err] | _ => [] end) t.

Definition deletes (t : Trace) : list DeleteMessageBatch.request :=
  flat_map (fun e => match e with DeleteMessageBatchCall p => [p] | _ => [] end) t.

Definition created (t : Trace) : list CreateQueue.request :=
  flat_map (fun e => match e with CreateQueueCall p => [p] | _ => [] end) t.

Definition logged_errors (t : Trace) : list JsError :=
  flat_map (fun e => match e with ConsoleLog error => [error] | _ => [] end) t.

Definition pollers (t : Trace) : list (string * JsVal) :=
  flat_map (fun e => match e with PollerStarted f q => [(f, q)] | _ => [] end) t.

(** An asynchronous computation only ever adds to the trace. *)
Definition extends {A} (m : M A) : Prop :=
  forall t, exists added, snd (m t) = (t ++ added)%list.

(** ** Queue resource definitions, as the data model types them *)

(** A leaf of a nested mapping: a string, a number, or a reference to
    another resource, [{"Fn::GetAtt": [target, ...path]}]. *)
Inductive Leaf : Type :=
| LeafString (s : string)
| LeafNumber (n : Z)
| LeafReference (target : JsVal) (path : list JsVal).

Inductive AttributeValue : Type :=
| AttrString (s : string)
| AttrNumber (n : Z)
| AttrNested (leaves : list (string * Leaf)).

(** The properties of a queue resource, [QueueName] among them. *)
Definition QueueResourceDefinition : Type := list (string * AttributeValue).

Definition leaf_value (l : Leaf) : JsVal :=
  match l with
  | LeafString s => JStr s
  | LeafNumber n => JNum n
  | LeafReference target path => JObj [("Fn::GetAtt", JArr (target :: path))]
  end.

Definition attribute_value (a : AttributeValue) : JsVal :=
  match a with
  | AttrString s => JStr s
  | AttrNumber n => JNum n
  | AttrNested leaves => JObj (map (fun p => (fst p, leaf_value (snd p))) leaves)
  end.

(** The JavaScript object the manifest holds for a definition. *)
Definition definition_value (d : QueueResourceDefinition) : JsVal :=
  JObj (map (fun p => (fst p, attribute_value (snd p))) d).

(** The keys of an object are distinct, here and in every nested
    mapping. *)
Definition well_keyed (d : QueueResourceDefinition) : Prop :=
  NoDup (map fst d) /\
  forall k leaves, In (k, AttrNested leaves) d -> NoDup (map fst leaves).

(** The attribute map in the spec's words: a leaf that is a string or a
    number is stringified, a reference leaf is replaced by element 0 of
    the reference; a nested mapping is resolved leaf by leaf and
    serialized to one JSON string; the identity key is skipped. *)
Definition resolved_leaf (l : Leaf) : JsVal :=
  match l with
  | LeafString s => JStr s
  | LeafNumber n => JStr (number_toString n)
  | LeafReference target _ => target
  end.

Definition backend_attribute (a : AttributeValue) : JsVal :=
  match a with
  | AttrString s => JStr s
  | AttrNumber n => JStr (number_toString n)
  | AttrNested leaves =>
      stringify (JObj (map (fun p => (fst p, resolved_leaf (snd p))) leaves))
  end.

Definition backend_attributes (d : QueueResourceDefinition) : list (string * JsVal) :=
  map (fun p => (fst p, backend_attribute (snd p)))
    (filter (fun p => negb (fst p =? "QueueName")) d).

(** ** A sample manifest and sample collaborators *)

Module Sample.

Definition orders_arn : string := "arn:aws:sqs:us-east-1:000000000000:orders".

Definition orders_properties : JsVal :=
  JObj [("QueueName", JStr "Q");
        ("VisibilityTimeout", JNum 30);
        ("RedrivePolicy",
         JObj [("maxReceiveCount", JNum 5);
               ("deadLetterTargetArn",
                JObj [("Fn::GetAtt", JArr [JStr "DLQ"; JStr "Arn"])])])].

Definition manifest : JsVal :=
  JObj [("provider", JObj [("region", JStr "eu-west-1")]);
        ("resources",
         JObj [("Resources",
                JObj [("Orders", JObj [("Type", JStr "AWS::SQS::Queue");
                                       ("Properties", orders_properties)]);
                      ("DLQ", JObj [("Type", JStr "AWS::SQS::Queue");
                                    ("Properties", JObj [("QueueName", JStr "dead")])]);
                      ("Table", JObj [("Type", JStr "AWS::DynamoDB::Table")])])]);
        ("functions",
         JObj [("worker",
                JObj [("events",
                       JArr [JObj [("sqs", JObj [("arn", JStr orders_arn);
                                                 ("batchSize", JNum 10)])];
                             JObj [("http", JStr "GET /")]])])])].

Definition plugin : ServerlessOfflineSQS := constructor manifest (JObj []).

(** Triggers of the four shapes, and some of none. *)
Definition by_arn : JsVal := JObj [("arn", JStr orders_arn); ("batchSize", JNum 10)].
Definition by_queueName : JsVal := JObj [("queueName", JStr "literal"); ("batchSize", JNum 10)].
Definition by_reference : JsVal :=
  JObj [("arn", JObj [("Fn::GetAtt", JArr [JStr "Orders"; JStr "Arn"])]);
        ("batchSize", JNum 10)].
Definition arn_and_queueName : JsVal :=
  JObj [("arn", JStr orders_arn); ("queueName", JStr "literal")].
Definition reference_and_queueName : JsVal :=
  JObj [("arn", JObj [("Fn::GetAtt", JArr [JStr "Orders"; JStr "Arn"])]);
        ("queueName", JStr "literal")].

Definition message (id handle text : string) : Message.t :=
  {| Message.MessageId := JStr id;
     Message.ReceiptHandle := JStr handle;
     Message.Body := JStr text;
     Message.Attributes := JObj [("SentTimestamp", JStr "1")];
     Message.MessageAttributes := JUndefined;
     Message.MD5OfBody := JStr "5d41402abc4b2a76b9719d911017c592" |}.

Definition batch : list Message.t :=
  [message "m1" "h1" "hello"; message "m2" "h2" "world"].

Definition url : JsVal := JStr "http://localhost:9324/queue/orders".

(** A backend that hands out [received] on every poll and whose delete
    always fails, with a handler that behaves as [run]. *)
Definition world (received : option (list Message.t)) (run : Invocation) : World :=
  {| sqs_createQueue := fun _ _ _ => Returns (Ok (JObj [("QueueUrl", url)]));
     sqs_getQueueUrl := fun _ _ _ => (None, {| GetQueueUrl.QueueUrl := url |});
     sqs_receiveMessage :=
       fun _ _ _ => (None, {| ReceiveMessage.Messages := received |});
     sqs_deleteMessageBatch := fun _ _ _ => (Some (Error "delete failed"), JUndefined);
     handler := fun _ _ _ => run |}.

(** A backend that refuses to create the queue named [Q] and creates
    every other one. *)
Definition refusing_world : World :=
  {| sqs_createQueue :=
       fun _ _ params =>
         if is_string "Q" (CreateQueue.QueueName params)
         then Returns (Throw (Error "connect ECONNREFUSED"))
         else Returns (Ok (JObj [("QueueUrl", url)]));
     sqs_getQueueUrl := fun _ _ _ => (None, {| GetQueueUrl.QueueUrl := url |});
     sqs_receiveMessage := fun _ _ _ => (None, {| ReceiveMessage.Messages := None |});
     sqs_deleteMessageBatch := fun _ _ _ => (None, JUndefined);
     handler := fun _ _ _ => ReturnsPromise (Ok JNull) |}.

Definition client : JsVal := JObj [("region", JStr "eu-west-1")].

Definition poll (received : option (list Message.t)) (run : Invocation)
  (fuel : nat) : result unit * Trace :=
  next plugin (world received run) "worker" by_arn client url fuel [].

(** [orders_properties], typed. *)
Definition orders_definition : QueueResourceDefinition :=
  [("QueueName", AttrString "Q");
   ("VisibilityTimeout", AttrNumber 30);
   ("RedrivePolicy",
    AttrNested [("maxReceiveCount", LeafNumber 5);
                ("deadLetterTargetArn", LeafReference (JStr "DLQ") [JStr "Arn"])])].

(** A backend whose [createQueue] call itself throws. *)
Definition throwing_world : World :=
  {| sqs_createQueue := fun _ _ _ => Throws (Error "invalid parameters");
     sqs_getQueueUrl := fun _ _ _ => (None, {| GetQueueUrl.QueueUrl := url |});
     sqs_receiveMessage := fun _ _ _ => (None, {| ReceiveMessage.Messages := None |});
     sqs_deleteMessageBatch := fun _ _ _ => (None, JUndefined);
     handler := fun _ _ _ => ReturnsPromise (Ok JNull) |}.

Definition failure : Invocation := CallsDone (Some (Error "handler failed")) JUndefined.

Definition success : Invocation := ReturnsPromise (Ok (JStr "done")).

Definition receive : ReceiveMessage.request :=
  {| ReceiveMessage.QueueUrl := url;
     ReceiveMessage.MaxNumberOfMessages := JNum 10;
     ReceiveMessage.WaitTimeSeconds := 1 |}.

Definition record (arn : JsVal) (id handle text : string) : SQSRecord :=
  {| messageId := JStr id;
     receiptHandle := JStr handle;
     body := JStr text;
     attributes := JObj [("SentTimestamp", JStr "1")];
     messageAttributes := JUndefined;
     md5OfBody := JStr "5d41402abc4b2a76b9719d911017c592";
     eventSource := JStr "aws:sqs";
     eventSourceARN := arn;
     awsRegion := JStr "us-west-2" |}.

Definition batch_event (arn : JsVal) : SQSEvent :=
  {| Records := [record arn "m1" "h1" "hello"; record arn "m2" "h2" "world"] |}.

Definition batch_entries : list DeleteMessageBatch.entry :=
  [{| DeleteMessageBatch.Id := JStr "m1"; DeleteMessageBatch.ReceiptHandle := JStr "h1" |};
   {| DeleteMessageBatch.Id := JStr "m2"; DeleteMessageBatch.ReceiptHandle := JStr "h2" |}].

(** Two instances that differ in every region setting. *)
Definition plugin_in (region : string) : ServerlessOfflineSQS :=
  constructor (JObj [("provider", JObj [("region", JStr region)])])
    (JObj [("region", JStr region)]).

End Sample.

(** ** Kinds of events and shapes of runs *)

(** An asynchronous computation adds to the trace only events of the
    kind [P]. *)
Definition emits {A} (P : Event -> Prop) (m : M A) : Prop :=
  forall t, exists added, snd (m t) = (t ++ added)%list /\ Forall P added.

(** What an invocation leaves in the trace. *)
Definition invocation_event (e : Event) : Prop :=
  match e with
  | Log (StreamLine _ _) => True
  | HandlerCall _ _ => True
  | Completion _ _ => True
  | _ => False
  end.

(** What the polling loop leaves in the trace. *)
Definition polling_event (e : Event) : Prop :=
  match e with
  | ReceiveMessageCall _ => True
  | DeleteMessageBatchCall _ => True
  | _ => invocation_event e
  end.

(** What provisioning one queue leaves in the trace. *)
Definition provisioning_event (e : Event) : Prop :=
  match e with
  | CreateQueueCall _ => True
  | ConsoleLog _ => True
  | _ => False
  end.

(** Anything but the start of a poller. *)
Definition not_a_start (e : Event) : Prop :=
  match e with
  | PollerStarted _ _ => False
  | _ => True
  end.

(** Anything but a call that creates a queue. *)
Definition not_a_creation (e : Event) : Prop :=
  match e with
  | CreateQueueCall _ => False
  | _ => True
  end.

Definition url_lookups (t : Trace) : list JsVal :=
  flat_map (fun e => match e with GetQueueUrlCall n => [n] | _ => [] end) t.

(** The delete entry of a record of the event. *)
Definition record_entry (r : SQSRecord) : DeleteMessageBatch.entry :=
  {| DeleteMessageBatch.Id := messageId r;
     DeleteMessageBatch.ReceiptHandle := receiptHandle r |}.

(** The events of one iteration of the loop that ran to its end: a
    receive call alone, or a receive call, the invocation of the batch
    with its successful completion, and the delete of that batch. *)
Inductive completed_iteration (receive : ReceiveMessage.request)
  (functionName : string) : Trace -> Prop :=
| iteration_idle :
    completed_iteration receive functionName [ReceiveMessageCall receive]
| iteration_batch (streamName : JsVal) (event : SQSEvent) (data : JsVal) :
    completed_iteration receive functionName
      [ReceiveMessageCall receive;
       Log (StreamLine streamName functionName);
       HandlerCall functionName event;
       Completion None data;
       DeleteMessageBatchCall
         {| DeleteMessageBatch.Entries := map record_entry (Records event);
            DeleteMessageBatch.QueueUrl := ReceiveMessage.QueueUrl receive |}].

(** The events of the iteration in which the loop ended: nothing (the
    batch size could not be read), a receive call that failed or whose
    batch could not be handed over, or an invocation that threw or
    reported an error. *)
Inductive interrupted_iteration (receive : ReceiveMessage.request)
  (functionName : string) : Trace -> Prop :=
| interrupted_at_once : interrupted_iteration receive functionName []
| interrupted_receive :
    interrupted_iteration receive functionName [ReceiveMessageCall receive]
| interrupted_build (streamName : JsVal) :
    interrupted_iteration receive functionName
      [ReceiveMessageCall receive; Log (StreamLine streamName functionName)]
| interrupted_call (streamName : JsVal) (event : SQSEvent) :
    interrupted_iteration receive functionName
      [ReceiveMessageCall receive;
       Log (StreamLine streamName functionName);
       HandlerCall functionName event]
| interrupted_completion (streamName : JsVal) (event : SQSEvent)
    (error : JsError) (data : JsVal) :
    interrupted_iteration receive functionName
      [ReceiveMessageCall receive;
       Log (StreamLine streamName functionName);
       HandlerCall functionName event;
       Completion (Some error) data].

(** The receive request of a poller: up to [queueEvent.batchSize]
    messages of the queue, waiting one second. *)
Definition receive_request (queueEvent QueueUrl : JsVal) : ReceiveMessage.request :=
  {| ReceiveMessage.QueueUrl := QueueUrl;
     ReceiveMessage.MaxNumberOfMessages := lodash_get "batchSize" queueEvent;
     ReceiveMessage.WaitTimeSeconds := 1 |}.

(** The number of colons of a string. *)
Fixpoint colons (s : string) : nat :=
  match s with
  | EmptyString => 0
  | String c rest => (if Ascii.eqb c ":" then 1 else 0) + colons rest
  end.

(** The sqs triggers of a function, as [offlineStartInit] extracts them
    (line 241). *)
Definition sqs_triggers (_function : JsVal) : list JsVal :=
  map (lodash_get "sqs")
    (filter (has "sqs") (map snd (entries (lodash_get "events" _function)))).

(** The definitions of the resources of the catalog that are queues
    (line 228), and the [createQueue] parameters of those for which
    parameters can be built. *)
Definition queue_definitions (catalog : list (string * JsVal)) : list JsVal :=
  flat_map (fun entry =>
              if is_string "AWS::SQS::Queue" (lodash_get "Type" (snd entry))
              then [lodash_get "Properties" (snd entry)]
              else []) catalog.

Definition requested (definitions : list JsVal) : list CreateQueue.request :=
  flat_map (fun queue => match createInitialQueue_params queue with
                         | Ok params => [params]
                         | Throw _ => []
                         end) definitions.

(** More sample inputs. *)
Module More.

(** A trigger whose reference is written in the short form. *)
Definition short_reference : JsVal :=
  JObj [("arn", JObj [("Fn::GetAtt", JStr "Orders.Arn")])].

(** A queue with a boolean attribute and one with a null attribute. *)
Definition fifo_properties : JsVal :=
  JObj [("QueueName", JStr "jobs.fifo"); ("FifoQueue", JBool true);
        ("DelaySeconds", JNum 5)].

Definition null_properties : JsVal :=
  JObj [("QueueName", JStr "jobs"); ("RedrivePolicy", JNull)].

(** An instance configured in its manifest, with a region on the command
    line too. *)
Definition configured : ServerlessOfflineSQS :=
  constructor
    (JObj [("provider", JObj [("region", JStr "eu-west-1")]);
           ("custom",
            JObj [("serverless-offline-sqs-local",
                   JObj [("endpoint", JStr "http://localhost:9324");
                         ("region", JStr "elasticmq")])])])
    (JObj [("region", JStr "us-east-2")]).

(** A manifest without resources and with two functions. *)
Definition bare_manifest : JsVal :=
  JObj [("provider", JObj [("region", JStr "eu-west-1")]);
        ("functions",
         JObj [("first",
                JObj [("events",
                       JArr [JObj [("sqs", Sample.by_arn)];
                             JObj [("http", JStr "GET /")];
                             JObj [("sqs", Sample.by_queueName)]])]);
               ("second", JObj [("handler", JStr "index.handler")]);
               ("third",
                JObj [("events", JArr [JObj [("sqs", JStr Sample.orders_arn)]])])])].

Definition bare : ServerlessOfflineSQS := constructor bare_manifest (JObj []).

(** A backend that cannot find the queue. *)
Definition lost_world : World :=
  {| sqs_createQueue := fun _ _ _ => Returns (Ok JNull);
     sqs_getQueueUrl :=
       fun _ _ _ => (Some (Error "NonExistentQueue"),
                     {| GetQueueUrl.QueueUrl := JUndefined |});
     sqs_receiveMessage := fun _ _ _ => (None, {| ReceiveMessage.Messages := None |});
     sqs_deleteMessageBatch := fun _ _ _ => (None, JUndefined);
     handler := fun _ _ _ => ReturnsPromise (Ok JNull) |}.

End More.

(** * Properties *)

(** ** Values *)

Example split_arn :
  split ":" "arn:aws:sqs:us-east-1:000000000000:orders"
  = ["arn"; "aws"; "sqs"; "us-east-1"; "000000000000"; "orders"].
Proof. reflexivity. Qed.

Example stringify_nested :
  JSON_stringify (JObj [("maxReceiveCount", JStr "5"); ("deadLetterTargetArn", JStr "DLQ")])
  = Some ("{" ++ quote "maxReceiveCount" ++ ":" ++ quote "5" ++ ","
              ++ quote "deadLetterTargetArn" ++ ":" ++ quote "DLQ" ++ "}").
Proof. reflexivity. Qed.

Example stringify_escapes :
  JSON_stringify (JArr [JStr (String (ascii_of_nat 10) "a\b"); JUndefined; JNum (-3)])
  = Some ("[" ++ String (ascii_of_nat 34)
                   ("\na\\b" ++ String (ascii_of_nat 34) ",null,-3]")).
Proof. reflexivity. Qed.

Lemma typeof_string (v : JsVal) :
  (typeof v =? "string") = true <-> exists s, v = JStr s.
Proof.
  split.
  - destruct v; simpl; try discriminate. intros _. eauto.
  - intros [s ->]. reflexivity.
Qed.

Lemma typeof_not_string (v : JsVal) :
  typeof v <> "string" -> (typeof v =? "string") = false.
Proof.
  intros H. destruct (String.eqb_spec (typeof v) "string"); congruence.
Qed.

Lemma get_defined (v : JsVal) (k : string) :
  v <> JUndefined -> v <> JNull -> exists x, get v k = Ok x.
Proof.
  destruct v; simpl; intros; try congruence; eauto.
  - destruct (k =? "length"); eauto.
  - destruct (k =? "length"); eauto.
  - destruct (assoc k props); eauto.
Qed.

Lemma truthy_defined (v : JsVal) :
  truthy v = true -> v <> JUndefined /\ v <> JNull /\ v <> JNum 0.
Proof. destruct v; simpl; try discriminate; repeat split; try discriminate.
  intros E. inversion E. subst. discriminate.
Qed.

(** A property that is there has a truthy owner. *)
Lemma get_owner_truthy (v : JsVal) (k : string) (x : JsVal) :
  get v k = Ok x -> x <> JUndefined -> x <> JNum 0 -> truthy v = true.
Proof.
  destruct v; simpl; try discriminate; try (intros [= <-]; congruence); auto.
  destruct s as [|c s]; simpl; auto.
  destruct (k =? "length"); intros [= <-]; congruence.
Qed.

Lemma and_get_truthy (v : JsVal) (k : string) :
  truthy (and_get v k) = true -> truthy v = true /\ get v k = Ok (and_get v k).
Proof.
  unfold and_get. destruct (truthy v) eqn:T.
  - intros _. split; [reflexivity|].
    destruct (truthy_defined v T) as (U & N & _).
    destruct (get_defined v k U N) as [x ->]. reflexivity.
  - congruence.
Qed.

Lemma and_get_owner (v : JsVal) (k : string) (x : JsVal) :
  get v k = Ok x -> truthy x = true -> and_get v k = x /\ truthy v = true.
Proof.
  intros G T. destruct (truthy_defined x T) as (U & _ & Z).
  pose proof (get_owner_truthy v k x G U Z) as Tv.
  unfold and_get. rewrite Tv, G. auto.
Qed.

(** ** Resolving the queue name *)

(** The guarded chain of [getQueueName] (lines 62-69) finds exactly the
    names the catalog holds. *)
Lemma guarded_chain_is_catalog (svc : JsVal) (r : string) :
  (let Properties :=
     and_get (and_get (and_get (and_get svc "resources") "Resources") r)
       "Properties" in
   if truthy Properties then
     QueueName <- get Properties "QueueName" ;
     if typeof QueueName =? "string" then Ok QueueName
     else Throw QueueName_not_found
   else Throw QueueName_not_found)
  = match catalog_QueueName svc r with
    | Some name => Ok (JStr name)
    | None => Throw QueueName_not_found
    end.
Proof.
  cbv zeta.
  set (X1 := and_get svc "resources").
  set (X2 := and_get X1 "Resources").
  set (X3 := and_get X2 r).
  set (P := and_get X3 "Properties").
  destruct (truthy P) eqn:TP.
  - destruct (and_get_truthy X3 "Properties" TP) as [T3 G4]. fold P in G4.
    destruct (and_get_truthy X2 r T3) as [T2 G3]. fold X3 in G3.
    destruct (and_get_truthy X1 "Resources" T2) as [T1 G2]. fold X2 in G2.
    destruct (and_get_truthy svc "resources" T1) as [_ G1]. fold X1 in G1.
    unfold catalog_QueueName. rewrite G1. simpl. rewrite G2. simpl.
    rewrite G3. simpl. rewrite G4. simpl.
    destruct (truthy_defined P TP) as (U & N & _).
    destruct (get_defined P "QueueName" U N) as [q ->]. simpl.
    destruct q; reflexivity.
  - destruct (catalog_QueueName svc r) as [name|] eqn:E; [exfalso|reflexivity].
    unfold catalog_QueueName in E.
    destruct (get svc "resources") as [x1|] eqn:G1; simpl in E; [|discriminate].
    destruct (get x1 "Resources") as [x2|] eqn:G2; simpl in E; [|discriminate].
    destruct (get x2 r) as [x3|] eqn:G3; simpl in E; [|discriminate].
    destruct (get x3 "Properties") as [p|] eqn:G4; simpl in E; [|discriminate].
    destruct (get p "QueueName") as [q|] eqn:G5; [|discriminate].
    destruct q; try discriminate.
    assert (Tp : truthy p = true)
      by (apply (get_owner_truthy p "QueueName" (JStr s) G5); discriminate).
    destruct (and_get_owner x3 "Properties" p G4 Tp) as [E4 T3].
    destruct (and_get_owner x2 r x3 G3 T3) as [E3 T2].
    destruct (and_get_owner x1 "Resources" x2 G2 T2) as [E2 T1].
    destruct (and_get_owner svc "resources" x1 G1 T1) as [E1 _].
    unfold P, X3, X2, X1 in TP. rewrite E1, E2, E3, E4 in TP. congruence.
Qed.

(** [split] undoes joining colon-free fields with colons. *)
Lemma split_colon_free (s : string) :
  colon_free s -> split ":" s = [s].
Proof.
  unfold colon_free. induction s as [|c s IH]; simpl; intros H; [reflexivity|].
  destruct (Ascii.eqb_spec c ":"%char) as [->|_].
  - exfalso. apply H. now left.
  - rewrite IH by (intros I; apply H; now right). reflexivity.
Qed.

Lemma split_append (field rest : string) :
  colon_free field ->
  split ":" (field ++ String ":" rest) = field :: split ":" rest.
Proof.
  unfold colon_free. induction field as [|c f IH]; simpl; intros H; [reflexivity|].
  destruct (Ascii.eqb_spec c ":"%char) as [->|_].
  - exfalso. apply H. now left.
  - rewrite IH by (intros I; apply H; now right). reflexivity.
Qed.

Lemma split_concat (fields : list string) :
  fields <> [] -> Forall colon_free fields ->
  split ":" (String.concat ":" fields) = fields.
Proof.
  induction fields as [|f fields IH]; intros NE F; [congruence|].
  inversion F as [|? ? Hf Hfs]; subst.
  destruct fields as [|g fields].
  - simpl. now apply split_colon_free.
  - change (String.concat ":" (f :: g :: fields))
      with (f ++ String ":" (String.concat ":" (g :: fields))).
    rewrite split_append by assumption.
    rewrite IH by (assumption || discriminate). reflexivity.
Qed.

Lemma extractQueueNameFromARN_fields (fields : list string) :
  fields <> [] -> Forall colon_free fields ->
  extractQueueNameFromARN (JStr (String.concat ":" fields)) = Ok (sixth_field fields).
Proof.
  intros NE F. unfold extractQueueNameFromARN, sixth_field.
  rewrite split_concat by assumption.
  destruct (nth_error fields 5); reflexivity.
Qed.

(** C5, as stated, fails: a string [arn] is tested before [queueName]
    (line 56 before line 57), so a trigger carrying both resolves to the
    sixth field of the [arn], not to the literal [queueName]. *)
Lemma getQueueName_arn_beats_queueName :
  get Sample.arn_and_queueName "arn" = Ok (JStr Sample.orders_arn) /\
  get Sample.arn_and_queueName "queueName" = Ok (JStr "literal") /\
  getQueueName Sample.plugin Sample.arn_and_queueName = Ok (JStr "orders") /\
  getQueueName Sample.plugin Sample.arn_and_queueName <> Ok (JStr "literal").
Proof. repeat split; try reflexivity. discriminate. Qed.

(** C5, amended: for a trigger object whose [queueName] is a string and
    whose [arn] is not a string (absent, or an indirect reference),
    [getQueueName] returns the [queueName] verbatim. *)
Theorem getQueueName_literal_queueName
  (this : ServerlessOfflineSQS) (queueEvent arn : JsVal) (name : string) :
  typeof queueEvent <> "string" ->
  get queueEvent "arn" = Ok arn ->
  typeof arn <> "string" ->
  get queueEvent "queueName" = Ok (JStr name) ->
  getQueueName this queueEvent = Ok (JStr name).
Proof.
  intros Hq Harn Hnot Hname. unfold getQueueName.
  rewrite (typeof_not_string _ Hq), Harn. simpl.
  rewrite (typeof_not_string _ Hnot), Hname. reflexivity.
Qed.

Lemma getQueueName_literal_queueName_witness :
  getQueueName Sample.plugin Sample.reference_and_queueName = Ok (JStr "literal").
Proof.
  apply (getQueueName_literal_queueName Sample.plugin Sample.reference_and_queueName
           (JObj [("Fn::GetAtt", JArr [JStr "Orders"; JStr "Arn"])]) "literal").
  - simpl. discriminate.
  - reflexivity.
  - simpl. discriminate.
  - reflexivity.
Defined.

(** C6, as stated, fails in its last part: a trigger whose [arn] is an
    indirect reference to a catalog resource with a string [QueueName]
    resolves to its own [queueName] when it has one (line 57 returns
    before line 59 is reached). *)
Lemma getQueueName_reference_loses_to_queueName :
  get Sample.reference_and_queueName "arn"
  = Ok (JObj [("Fn::GetAtt", JArr [JStr "Orders"; JStr "Arn"])]) /\
  catalog_QueueName (service Sample.plugin) "Orders" = Some "Q" /\
  getQueueName Sample.plugin Sample.reference_and_queueName = Ok (JStr "literal") /\
  getQueueName Sample.plugin Sample.reference_and_queueName <> Ok (JStr "Q").
Proof. repeat split; try reflexivity. discriminate. Qed.

(** C6, amended: a string trigger, and a trigger object whose [arn] is a
    string, resolve to the sixth colon-delimited field of that string
    ([undefined] when it has fewer than six); a trigger object whose
    [arn] is an indirect reference naming a catalog resource with a
    string [QueueName], and whose own [queueName] is not a string,
    resolves to that [QueueName]. *)
Theorem getQueueName_by_shape (this : ServerlessOfflineSQS) :
  (forall fields : list string,
      fields <> [] -> Forall colon_free fields ->
      getQueueName this (JStr (String.concat ":" fields)) = Ok (sixth_field fields))
  /\
  (forall (queueEvent : JsVal) (fields : list string),
      typeof queueEvent <> "string" ->
      fields <> [] -> Forall colon_free fields ->
      get queueEvent "arn" = Ok (JStr (String.concat ":" fields)) ->
      getQueueName this queueEvent = Ok (sixth_field fields))
  /\
  (forall (queueEvent arn queueName : JsVal) (ResourceName : string)
          (rest : list JsVal) (name : string),
      typeof queueEvent <> "string" ->
      get queueEvent "arn" = Ok arn ->
      typeof arn <> "string" ->
      get queueEvent "queueName" = Ok queueName ->
      typeof queueName <> "string" ->
      get arn "Fn::GetAtt" = Ok (JArr (JStr ResourceName :: rest)) ->
      catalog_QueueName (service this) ResourceName = Some name ->
      getQueueName this queueEvent = Ok (JStr name)).
Proof.
  split; [|split].
  - intros fields NE F. unfold getQueueName. simpl.
    now apply extractQueueNameFromARN_fields.
  - intros queueEvent fields Hq NE F Harn. unfold getQueueName.
    rewrite (typeof_not_string _ Hq), Harn. simpl.
    now apply extractQueueNameFromARN_fields.
  - intros queueEvent arn queueName ResourceName rest name
      Hq Harn Hnot Hqn Hqnot Hatt Hcat.
    unfold getQueueName.
    rewrite (typeof_not_string _ Hq), Harn. simpl.
    rewrite (typeof_not_string _ Hnot), Hqn. simpl.
    rewrite (typeof_not_string _ Hqnot), Hatt. simpl.
    rewrite guarded_chain_is_catalog, Hcat. reflexivity.
Qed.

Lemma getQueueName_by_shape_witness :
  getQueueName Sample.plugin (JStr Sample.orders_arn) = Ok (JStr "orders") /\
  getQueueName Sample.plugin Sample.by_arn = Ok (JStr "orders") /\
  getQueueName Sample.plugin Sample.by_reference = Ok (JStr "Q").
Proof.
  destruct (getQueueName_by_shape Sample.plugin) as (Plain & Arn & Ref).
  assert (NE : ["arn"; "aws"; "sqs"; "us-east-1"; "000000000000"; "orders"] <> [])
    by discriminate.
  assert (F : Forall colon_free
                ["arn"; "aws"; "sqs"; "us-east-1"; "000000000000"; "orders"]).
  { repeat constructor; unfold colon_free; simpl; intuition discriminate. }
  split; [|split].
  - exact (Plain _ NE F).
  - apply (Arn Sample.by_arn
             ["arn"; "aws"; "sqs"; "us-east-1"; "000000000000"; "orders"]);
      try assumption.
    + simpl. discriminate.
    + reflexivity.
  - apply (Ref Sample.by_reference
             (JObj [("Fn::GetAtt", JArr [JStr "Orders"; JStr "Arn"])])
             JUndefined "Orders" [JStr "Arn"] "Q").
    + simpl. discriminate.
    + reflexivity.
    + simpl. discriminate.
    + reflexivity.
    + simpl. discriminate.
    + reflexivity.
    + reflexivity.
Defined.




(** ** Building the invocation event *)

Lemma index_key_not_arn (i : nat) : ("arn" =? index_key i) = false.
Proof.
  unfold index_key, NilZero.string_of_uint.
  destruct (Nat.to_uint i); reflexivity.
Qed.

Lemma char_at_not_arn (s : string) (i : nat) : char_at s i "arn" = JUndefined.
Proof.
  revert i. induction s as [|c s IH]; intros i; [reflexivity|].
  cbn [char_at]. rewrite index_key_not_arn. apply IH.
Qed.

Lemma string_has_no_arn (s : string) : get (JStr s) "arn" = Ok JUndefined.
Proof. cbn. now rewrite char_at_not_arn. Qed.

(** Whenever [getQueueName] returns, the trigger's [arn] can be read, so
    the build that follows it in [eventHandler] does not throw. *)
Lemma getQueueName_reads_arn
  (this : ServerlessOfflineSQS) (queueEvent name : JsVal) :
  getQueueName this queueEvent = Ok name -> exists arn, get queueEvent "arn" = Ok arn.
Proof.
  intros H. apply get_defined; intros ->; discriminate H.
Qed.

Lemma map_result_total {A B} (f : A -> result B) (g : A -> B) (l : list A) :
  (forall x, f x = Ok (g x)) -> map_result f l = Ok (map g l).
Proof.
  intros H. induction l as [|x l IH]; [reflexivity|].
  cbn [map_result map]. rewrite H, IH. reflexivity.
Qed.

Lemma eventHandler_event_map (queueEvent arn : JsVal) (messages : list Message.t) :
  get queueEvent "arn" = Ok arn ->
  eventHandler_event queueEvent messages
  = Ok {| Records :=
            map (fun m => {| messageId := Message.MessageId m;
                             receiptHandle := Message.ReceiptHandle m;
                             body := Message.Body m;
                             attributes := Message.Attributes m;
                             messageAttributes := Message.MessageAttributes m;
                             md5OfBody := Message.MD5OfBody m;
                             eventSource := JStr "aws:sqs";
                             eventSourceARN := arn;
                             awsRegion := JStr "us-west-2" |}) messages |}.
Proof.
  intros Harn. unfold eventHandler_event.
  erewrite map_result_total; [reflexivity|].
  intros m. rewrite Harn. reflexivity.
Qed.

Lemma eventHandler_event_nil (queueEvent : JsVal) :
  eventHandler_event queueEvent [] = Ok {| Records := [] |}.
Proof. reflexivity. Qed.

(** C9, as stated, fails: the source identifier of a record is
    [queueEvent.arn] (line 114), and a trigger declared as a plain
    string or by [queueName] has no such field.  Either trigger names a
    queue, [orders] and [literal]; the events built for the two are the
    same, and their records hold [undefined] in place of an identifier
    of the trigger. *)
Lemma eventHandler_event_unidentified_trigger :
  getQueueName Sample.plugin (JStr Sample.orders_arn) = Ok (JStr "orders") /\
  getQueueName Sample.plugin Sample.by_queueName = Ok (JStr "literal") /\
  eventHandler_event (JStr Sample.orders_arn) Sample.batch
  = Ok (Sample.batch_event JUndefined) /\
  eventHandler_event Sample.by_queueName Sample.batch
  = Ok (Sample.batch_event JUndefined) /\
  Forall (fun r => eventSourceARN r = JUndefined)
    (Records (Sample.batch_event JUndefined)) /\
  Forall (fun r => eventSourceARN r <> JStr Sample.orders_arn)
    (Records (Sample.batch_event JUndefined)).
Proof.
  repeat split; try reflexivity; repeat constructor; discriminate.
Qed.

(** C9, amended: for a trigger whose [arn] field reads as [arn], the
    event built from [messages] has one record per message, in the same
    order; record [i] carries message [i]'s id, receipt handle, body,
    attributes, message attributes and checksum, the constant source
    tag, the region tag, and as its source identifier the trigger's
    [arn] field, which is [undefined] for a plain string trigger and for
    a trigger object without an [arn].  The build is a mapping of the
    messages: the event depends on them and on the trigger's [arn] field
    alone. *)
Theorem eventHandler_event_records
  (queueEvent arn : JsVal) (messages : list Message.t) :
  get queueEvent "arn" = Ok arn ->
  (typeof queueEvent = "string" -> arn = JUndefined) /\
  (forall props, queueEvent = JObj props -> assoc "arn" props = None ->
                 arn = JUndefined) /\
  exists event,
    eventHandler_event queueEvent messages = Ok event /\
    List.length (Records event) = List.length messages /\
    (forall (i : nat) (m : Message.t),
       nth_error messages i = Some m ->
       exists r,
         nth_error (Records event) i = Some r /\
         messageId r = Message.MessageId m /\
         receiptHandle r = Message.ReceiptHandle m /\
         body r = Message.Body m /\
         attributes r = Message.Attributes m /\
         messageAttributes r = Message.MessageAttributes m /\
         md5OfBody r = Message.MD5OfBody m /\
         eventSource r = JStr "aws:sqs" /\
         eventSourceARN r = arn /\
         awsRegion r = JStr "us-west-2") /\
    (forall other : JsVal,
       get other "arn" = Ok arn ->
       eventHandler_event other messages = Ok event).
Proof.
  intros Harn. split; [|split].
  - intros Hs. destruct queueEvent; try discriminate Hs.
    rewrite string_has_no_arn in Harn. congruence.
  - intros props -> Hnone. simpl in Harn. rewrite Hnone in Harn. congruence.
  - eexists. split; [apply (eventHandler_event_map _ _ _ Harn)|].
    cbn [Records]. split; [apply length_map|]. split.
    + intros i m Hi. eexists. split.
      * apply map_nth_error. exact Hi.
      * cbn. repeat split.
    + intros other Hother. apply (eventHandler_event_map _ _ _ Hother).
Qed.

Lemma eventHandler_event_records_witness :
  eventHandler_event Sample.by_arn Sample.batch
  = Ok (Sample.batch_event (JStr Sample.orders_arn)) /\
  eventHandler_event Sample.by_queueName Sample.batch
  = Ok (Sample.batch_event JUndefined).
Proof.
  split.
  - destruct (eventHandler_event_records Sample.by_arn (JStr Sample.orders_arn)
                Sample.batch eq_refl)
      as (_ & _ & [records] & Hev & Hlen & Hrec & _).
    rewrite Hev. cbn [Records] in Hlen, Hrec.
    destruct records as [|r1 [|r2 [|r3 rest]]]; try discriminate Hlen.
    destruct (Hrec 0 _ eq_refl) as (r & [= <-] & H1).
    destruct (Hrec 1 _ eq_refl) as (r & [= <-] & H2).
    destruct r1, r2. cbn in H1, H2.
    destruct H1 as (-> & -> & -> & -> & -> & -> & -> & -> & ->).
    destruct H2 as (-> & -> & -> & -> & -> & -> & -> & -> & ->).
    reflexivity.
  - destruct (eventHandler_event_records Sample.by_queueName JUndefined
                Sample.batch eq_refl)
      as (_ & _ & [records] & Hev & Hlen & Hrec & _).
    rewrite Hev. cbn [Records] in Hlen, Hrec.
    destruct records as [|r1 [|r2 [|r3 rest]]]; try discriminate Hlen.
    destruct (Hrec 0 _ eq_refl) as (r & [= <-] & H1).
    destruct (Hrec 1 _ eq_refl) as (r & [= <-] & H2).
    destruct r1, r2. cbn in H1, H2.
    destruct H1 as (-> & -> & -> & -> & -> & -> & -> & -> & ->).
    destruct H2 as (-> & -> & -> & -> & -> & -> & -> & -> & ->).
    reflexivity.
Defined.

(** ** The trace of an invocation *)

Lemma skipn_past {A} (t l : list A) : skipn (List.length t) (t ++ l)%list = l.
Proof. induction t as [|x t IH]; simpl; auto. Qed.

(** The only handler call [eventHandler] makes carries the event built
    from the trigger and the messages. *)
Lemma eventHandler_call
  (this : ServerlessOfflineSQS) (world : World) (queueEvent : JsVal)
  (functionName : string) (messages : option (list Message.t)) (t : Trace)
  (f : string) (event : SQSEvent) :
  In (HandlerCall f event)
     (skipn (List.length t)
        (snd (eventHandler this world queueEvent functionName messages t))) ->
  exists batch,
    messages = Some batch /\ eventHandler_event queueEvent batch = Ok event.
Proof.
  unfold eventHandler. destruct messages as [batch|].
  - unfold bindM, lift, emit, call, done, throw, ret.
    destruct (getQueueName this queueEvent) as [name|e]; simpl.
    + destruct (eventHandler_event queueEvent batch) as [ev|e] eqn:Eev; simpl.
      * intros H. exists batch. split; [reflexivity|].
        destruct (handler world _ functionName ev) as [e|[res|e]|err data];
          simpl in H; rewrite <- ?app_assoc in H; rewrite skipn_past in H;
          simpl in H; intuition (try discriminate); congruence.
      * rewrite skipn_past. simpl. intuition discriminate.
    + rewrite <- (app_nil_r t) at 2. rewrite skipn_past. intros [].
  - unfold ret. simpl. rewrite <- (app_nil_r t) at 2. rewrite skipn_past. intros [].
Qed.

(** C10: whatever the plugin instance (its options, its provider's
    region, its configuration) and whatever the collaborators do, every
    record of an event handed to the handler carries the region tag
    "us-west-2", and its source identifier is the trigger's [arn]
    field, which is [undefined] for a plain string trigger and for a
    trigger object without an [arn] (one declared by [queueName]). *)
Theorem record_region_and_source
  (this : ServerlessOfflineSQS) (world : World) (queueEvent : JsVal)
  (functionName : string) (messages : option (list Message.t)) (t : Trace)
  (f : string) (event : SQSEvent) (r : SQSRecord) :
  In (HandlerCall f event)
     (skipn (List.length t)
        (snd (eventHandler this world queueEvent functionName messages t))) ->
  In r (Records event) ->
  awsRegion r = JStr "us-west-2" /\
  get queueEvent "arn" = Ok (eventSourceARN r) /\
  (typeof queueEvent = "string" -> eventSourceARN r = JUndefined) /\
  (forall props, queueEvent = JObj props -> assoc "arn" props = None ->
                 eventSourceARN r = JUndefined).
Proof.
  intros Hcall Hr.
  destruct (eventHandler_call _ _ _ _ _ _ _ _ Hcall) as (batch & _ & Hev).
  assert (Harn : exists arn, get queueEvent "arn" = Ok arn).
  { destruct batch as [|m ms].
    - rewrite eventHandler_event_nil in Hev. injection Hev as <-. destruct Hr.
    - unfold eventHandler_event in Hev. simpl in Hev.
      destruct (get queueEvent "arn") as [arn|]; [eauto|discriminate]. }
  destruct Harn as [arn Harn].
  rewrite (eventHandler_event_map _ _ _ Harn) in Hev. injection Hev as <-.
  cbn [Records] in Hr. apply in_map_iff in Hr. destruct Hr as (m & <- & _).
  cbn. split; [reflexivity|]. split; [assumption|]. split.
  - intros Hs. destruct queueEvent; try discriminate Hs.
    rewrite string_has_no_arn in Harn. congruence.
  - intros props -> Hnone. simpl in Harn. rewrite Hnone in Harn. congruence.
Qed.

Lemma record_region_and_source_witness :
  awsRegion (Sample.record JUndefined "m1" "h1" "hello") = JStr "us-west-2" /\
  get (JStr Sample.orders_arn) "arn"
  = Ok (eventSourceARN (Sample.record JUndefined "m1" "h1" "hello")) /\
  (typeof (JStr Sample.orders_arn) = "string" ->
   eventSourceARN (Sample.record JUndefined "m1" "h1" "hello") = JUndefined) /\
  (forall props, JStr Sample.orders_arn = JObj props -> assoc "arn" props = None ->
                 eventSourceARN (Sample.record JUndefined "m1" "h1" "hello") = JUndefined).
Proof.
  apply (record_region_and_source (Sample.plugin_in "eu-central-1")
           (Sample.world (Some Sample.batch) Sample.success)
           (JStr Sample.orders_arn) "worker" (Some Sample.batch) []
           "worker" (Sample.batch_event JUndefined)).
  - vm_compute. right. left. reflexivity.
  - simpl. left. reflexivity.
Defined.

(** The configured region reaches the client and nothing else: two
    instances in different regions get different clients and hand the
    handler the same event. *)
Example region_only_in_client :
  getClient (Sample.plugin_in "eu-central-1")
  = Ok (JObj [("region", JStr "eu-central-1")]) /\
  getClient (Sample.plugin_in "ap-south-1")
  = Ok (JObj [("region", JStr "ap-south-1")]) /\
  invocations (snd (eventHandler (Sample.plugin_in "eu-central-1")
                      (Sample.world None Sample.success)
                      Sample.by_queueName "worker" (Some Sample.batch) []))
  = [Sample.batch_event JUndefined] /\
  invocations (snd (eventHandler (Sample.plugin_in "ap-south-1")
                      (Sample.world None Sample.success)
                      Sample.by_queueName "worker" (Some Sample.batch) []))
  = [Sample.batch_event JUndefined].
Proof. repeat split. Qed.

(** ** The polling loop *)

Lemma extends_ret {A} (a : A) : extends (ret a).
Proof. intros t. exists []. simpl. now rewrite app_nil_r. Qed.

Lemma extends_throw {A} (e : JsError) : extends (@throw A e).
Proof. intros t. exists []. simpl. now rewrite app_nil_r. Qed.

Lemma extends_lift {A} (r : result A) : extends (lift r).
Proof. intros t. exists []. simpl. now rewrite app_nil_r. Qed.

Lemma extends_emit (e : Event) : extends (emit e).
Proof. intros t. now exists [e]. Qed.

Lemma extends_call {A} (e : Event) (oracle : Trace -> A) : extends (call e oracle).
Proof. intros t. now exists [e]. Qed.

Lemma extends_bindM {A B} (m : M A) (k : A -> M B) :
  extends m -> (forall a, extends (k a)) -> extends (bindM m k).
Proof.
  intros Hm Hk t. unfold bindM. destruct (Hm t) as [added E].
  destruct (m t) as [[a|e] t']; simpl in E; subst t'.
  - destruct (Hk a (t ++ added)%list) as [more E']. exists (added ++ more)%list.
    rewrite E'. now rewrite app_assoc.
  - now exists added.
Qed.

Lemma extends_fromCallback {A} (m : M (Callback A)) :
  extends m -> extends (fromCallback m).
Proof.
  intros Hm. unfold fromCallback. apply extends_bindM; [assumption|].
  intros [[err|] data]; simpl; [apply extends_throw|apply extends_ret].
Qed.

Create HintDb extends.
#[local] Hint Resolve extends_ret extends_throw extends_lift extends_emit
  extends_call extends_bindM extends_fromCallback : extends.

Lemma extends_eventHandler
  (this : ServerlessOfflineSQS) (world : World) (queueEvent : JsVal)
  (functionName : string) (messages : option (list Message.t)) :
  extends (eventHandler this world queueEvent functionName messages).
Proof.
  unfold eventHandler, done. destruct messages; auto with extends.
  repeat (apply extends_bindM; [auto with extends|intros]).
  match goal with |- extends (match ?run with _ => _ end) => destruct run as [|[|]|] end;
    auto with extends.
Qed.

Lemma extends_next
  (this : ServerlessOfflineSQS) (world : World) (functionName : string)
  (queueEvent client QueueUrl : JsVal) (fuel : nat) :
  extends (next this world functionName queueEvent client QueueUrl fuel).
Proof.
  induction fuel as [|fuel IH]; cbn [next]; [apply extends_ret|].
  apply extends_bindM; [auto with extends|intros batchSize].
  cbv zeta. apply extends_bindM; [auto with extends|intros data].
  apply extends_bindM; [|intros; exact IH].
  destruct (ReceiveMessage.Messages data); [|auto with extends].
  apply extends_bindM; [|intros; auto 6 with extends].
  apply extends_fromCallback, extends_eventHandler.
Qed.

(** One iteration of [next], spelled out on the trace. *)
Lemma next_iteration
  (this : ServerlessOfflineSQS) (world : World) (functionName : string)
  (queueEvent client QueueUrl : JsVal) (fuel : nat) (t : Trace) :
  next this world functionName queueEvent client QueueUrl (S fuel) t
  = match get queueEvent "batchSize" with
    | Throw e => (Throw e, t)
    | Ok batchSize =>
        let receive :=
          {| ReceiveMessage.QueueUrl := QueueUrl;
             ReceiveMessage.MaxNumberOfMessages := batchSize;
             ReceiveMessage.WaitTimeSeconds := 1 |} in
        let polled := (t ++ [ReceiveMessageCall receive])%list in
        match sqs_receiveMessage world client t receive with
        | (Some err, _) => (Throw err, polled)
        | (None, data) =>
            match ReceiveMessage.Messages data with
            | None =>
                next this world functionName queueEvent client QueueUrl fuel polled
            | Some Messages =>
                match fromCallback
                        (eventHandler this world queueEvent functionName
                           (Some Messages)) polled with
                | (Throw e, t') => (Throw e, t')
                | (Ok _, t') =>
                    next this world functionName queueEvent client QueueUrl fuel
                      (t' ++ [DeleteMessageBatchCall
                                {| DeleteMessageBatch.Entries :=
                                     map deleteEntry Messages;
                                   DeleteMessageBatch.QueueUrl := QueueUrl |}])%list
                end
            end
        end
    end.
Proof.
  cbn [next]. unfold bindM at 1. unfold lift at 1.
  destruct (get queueEvent "batchSize") as [batchSize|e]; [|reflexivity].
  cbv zeta. unfold bindM at 1. unfold fromCallback at 1. unfold bindM at 1.
  unfold call at 1.
  destruct (sqs_receiveMessage world client t _) as [[err|] data]; cbn [fst snd];
    [reflexivity|].
  unfold ret at 1. unfold bindM at 1.
  destruct (ReceiveMessage.Messages data) as [Messages|]; [|reflexivity].
  unfold bindM at 1.
  destruct (fromCallback _ _) as [[x|e] t']; [|reflexivity].
  unfold fromCallback, bindM, call, ret. cbn [fst snd].
  reflexivity.
Qed.

(** What [eventHandler] does with a batch, spelled out on the trace. *)
Lemma eventHandler_batch
  (this : ServerlessOfflineSQS) (world : World) (queueEvent : JsVal)
  (functionName : string) (messages : list Message.t) (t : Trace) :
  eventHandler this world queueEvent functionName (Some messages) t
  = match getQueueName this queueEvent with
    | Throw e => (Throw e, t)
    | Ok streamName =>
        let logged := (t ++ [Log (StreamLine streamName functionName)])%list in
        match eventHandler_event queueEvent messages with
        | Throw e => (Throw e, logged)
        | Ok event =>
            let called := (logged ++ [HandlerCall functionName event])%list in
            match handler world logged functionName event with
            | HandlerThrows error => (Throw error, called)
            | ReturnsPromise (Ok res) =>
                (Ok (None, res), called ++ [Completion None res])%list
            | ReturnsPromise (Throw error) =>
                (Ok (Some error, JUndefined),
                 called ++ [Completion (Some error) JUndefined])%list
            | CallsDone err data => (Ok (err, data), called ++ [Completion err data])%list
            end
        end
    end.
Proof.
  unfold eventHandler, bindM, lift, emit, call, done, throw, ret.
  destruct (getQueueName this queueEvent) as [streamName|e]; [|reflexivity].
  destruct (eventHandler_event queueEvent messages) as [event|e]; [|reflexivity].
  cbv zeta.
  destruct (handler world _ functionName event) as [e|[res|e]|err data]; reflexivity.
Qed.

(** Every iteration opens with a receive call for up to [batchSize]
    messages. *)
Lemma next_opens_with_receive
  (this : ServerlessOfflineSQS) (world : World) (functionName : string)
  (queueEvent client QueueUrl batchSize : JsVal) (fuel : nat) (t : Trace) :
  get queueEvent "batchSize" = Ok batchSize ->
  exists rest,
    snd (next this world functionName queueEvent client QueueUrl (S fuel) t)
    = (t ++ ReceiveMessageCall
              {| ReceiveMessage.QueueUrl := QueueUrl;
                 ReceiveMessage.MaxNumberOfMessages := batchSize;
                 ReceiveMessage.WaitTimeSeconds := 1 |} :: rest)%list.
Proof.
  intros Hbatch. rewrite next_iteration, Hbatch. cbv zeta.
  destruct (sqs_receiveMessage world client t _) as [[err|] data].
  - now exists [].
  - destruct (ReceiveMessage.Messages data) as [Messages|].
    + destruct (extends_fromCallback _
                  (extends_eventHandler this world queueEvent functionName
                     (Some Messages)) (t ++ [ReceiveMessageCall
              {| ReceiveMessage.QueueUrl := QueueUrl;
                 ReceiveMessage.MaxNumberOfMessages := batchSize;
                 ReceiveMessage.WaitTimeSeconds := 1 |}])%list) as [added E].
      destruct (fromCallback _ _) as [[x|e] t']; simpl in E; subst t'.
      * match goal with |- context [next _ _ _ _ _ _ fuel ?t'] =>
          destruct (extends_next this world functionName queueEvent client QueueUrl
                      fuel t') as [more E']
        end.
        rewrite E'. rewrite <- !app_assoc. simpl. eauto.
      * simpl. rewrite <- app_assoc. simpl. eauto.
    + match goal with |- context [next _ _ _ _ _ _ fuel ?t'] =>
        destruct (extends_next this world functionName queueEvent client QueueUrl
                    fuel t') as [more E']
      end.
      rewrite E'. rewrite <- app_assoc. simpl. eauto.
Qed.

Lemma receives_app (t l : Trace) :
  receives (t ++ l)%list = (receives t ++ receives l)%list.
Proof. apply flat_map_app. Qed.

(** An iteration that receives a batch (empty or not) and whose
    invocation reports success: the handler is called, its completion
    fires, the batch is deleted, and the loop goes on. *)
Lemma next_successful_iteration
  (this : ServerlessOfflineSQS) (world : World) (functionName : string)
  (queueEvent client QueueUrl : JsVal) (fuel : nat) (t : Trace)
  (batchSize streamName : JsVal) (Messages : list Message.t)
  (event : SQSEvent) (data : JsVal) :
  let receive :=
    {| ReceiveMessage.QueueUrl := QueueUrl;
       ReceiveMessage.MaxNumberOfMessages := batchSize;
       ReceiveMessage.WaitTimeSeconds := 1 |} in
  let history :=
    (t ++ [ReceiveMessageCall receive;
           Log (StreamLine streamName functionName)])%list in
  get queueEvent "batchSize" = Ok batchSize ->
  sqs_receiveMessage world client t receive
  = (None, {| ReceiveMessage.Messages := Some Messages |}) ->
  getQueueName this queueEvent = Ok streamName ->
  eventHandler_event queueEvent Messages = Ok event ->
  (handler world history functionName event = ReturnsPromise (Ok data) \/
   handler world history functionName event = CallsDone None data) ->
  next this world functionName queueEvent client QueueUrl (S fuel) t
  = next this world functionName queueEvent client QueueUrl fuel
      (t ++ [ReceiveMessageCall receive;
             Log (StreamLine streamName functionName);
             HandlerCall functionName event;
             Completion None data;
             DeleteMessageBatchCall
               {| DeleteMessageBatch.Entries :=
                    map (fun m =>
                           {| DeleteMessageBatch.Id := Message.MessageId m;
                              DeleteMessageBatch.ReceiptHandle :=
                                Message.ReceiptHandle m |}) Messages;
                  DeleteMessageBatch.QueueUrl := QueueUrl |}])%list.
Proof.
  intros receive history Hbatch Hrecv Hname Hevent Hrun.
  rewrite next_iteration, Hbatch. cbv zeta. fold receive. rewrite Hrecv.
  cbn [ReceiveMessage.Messages].
  unfold fromCallback, bindM. rewrite eventHandler_batch, Hname, Hevent. cbv zeta.
  rewrite <- app_assoc. cbn [app]. fold history.
  destruct Hrun as [-> | ->]; cbn [fst snd ret];
    unfold history; rewrite <- !app_assoc; reflexivity.
Qed.

(** An iteration whose receive call succeeds and whose invocation, if
    any, reports success leaves the loop running: the rest of the run is
    the run from the trace the iteration leaves. *)
Lemma next_iteration_completes
  (this : ServerlessOfflineSQS) (world : World) (functionName : string)
  (queueEvent client QueueUrl : JsVal) (t : Trace)
  (batchSize : JsVal) (response : ReceiveMessage.response) :
  let receive :=
    {| ReceiveMessage.QueueUrl := QueueUrl;
       ReceiveMessage.MaxNumberOfMessages := batchSize;
       ReceiveMessage.WaitTimeSeconds := 1 |} in
  get queueEvent "batchSize" = Ok batchSize ->
  sqs_receiveMessage world client t receive = (None, response) ->
  (forall Messages,
      ReceiveMessage.Messages response = Some Messages ->
      exists streamName event data,
        getQueueName this queueEvent = Ok streamName /\
        eventHandler_event queueEvent Messages = Ok event /\
        let history :=
          (t ++ [ReceiveMessageCall receive;
                 Log (StreamLine streamName functionName)])%list in
        (handler world history functionName event = ReturnsPromise (Ok data) \/
         handler world history functionName event = CallsDone None data)) ->
  exists iteration,
    receives iteration = [receive] /\
    forall fuel,
      next this world functionName queueEvent client QueueUrl (S fuel) t
      = next this world functionName queueEvent client QueueUrl fuel
          (t ++ iteration)%list.
Proof.
  intros receive Hbatch Hrecv Hrun.
  destruct response as [[Messages|]].
  - destruct (Hrun Messages eq_refl) as (streamName & event & data & Hn & He & Hh).
    eexists. split; [|intros fuel].
    2: apply (next_successful_iteration this world functionName queueEvent
                client QueueUrl fuel t batchSize streamName Messages event data);
      assumption.
    reflexivity.
  - exists [ReceiveMessageCall receive]. split; [reflexivity|]. intros fuel.
    rewrite next_iteration, Hbatch. cbv zeta. fold receive. rewrite Hrecv.
    reflexivity.
Qed.

(** C1, as stated, fails: when the completion signal reports an error,
    [fromCallback] rejects (line 11), the [await] of line 194 throws and
    the delete of lines 196-207 is never reached.  A batch of two is
    received, the signal fires with an error, and no delete call is
    made however long the poller is watched. *)
Lemma next_error_skips_delete :
  fst (Sample.poll (Some Sample.batch) Sample.failure 3)
  = Throw (Error "handler failed") /\
  receives (snd (Sample.poll (Some Sample.batch) Sample.failure 3))
  = [Sample.receive] /\
  invocations (snd (Sample.poll (Some Sample.batch) Sample.failure 3))
  = [Sample.batch_event (JStr Sample.orders_arn)] /\
  completions (snd (Sample.poll (Some Sample.batch) Sample.failure 3))
  = [Some (Error "handler failed")] /\
  deletes (snd (Sample.poll (Some Sample.batch) Sample.failure 3)) = [].
Proof. repeat split. Qed.

(** C1, amended: in every iteration in which the receive call returns a
    non-empty batch and the invocation's completion signal reports
    success, the poller issues exactly one batch-delete call, with one
    [{Id, ReceiptHandle}] entry per received message in order, and it
    issues it after the completion signal has fired; then it loops. *)
Theorem next_deletes_after_success
  (this : ServerlessOfflineSQS) (world : World) (functionName : string)
  (queueEvent client QueueUrl : JsVal) (fuel : nat) (t : Trace)
  (batchSize streamName : JsVal) (Messages : list Message.t)
  (event : SQSEvent) (data : JsVal) :
  let receive :=
    {| ReceiveMessage.QueueUrl := QueueUrl;
       ReceiveMessage.MaxNumberOfMessages := batchSize;
       ReceiveMessage.WaitTimeSeconds := 1 |} in
  let history :=
    (t ++ [ReceiveMessageCall receive;
           Log (StreamLine streamName functionName)])%list in
  get queueEvent "batchSize" = Ok batchSize ->
  sqs_receiveMessage world client t receive
  = (None, {| ReceiveMessage.Messages := Some Messages |}) ->
  Messages <> [] ->
  getQueueName this queueEvent = Ok streamName ->
  eventHandler_event queueEvent Messages = Ok event ->
  (handler world history functionName event = ReturnsPromise (Ok data) \/
   handler world history functionName event = CallsDone None data) ->
  next this world functionName queueEvent client QueueUrl (S fuel) t
  = next this world functionName queueEvent client QueueUrl fuel
      (t ++ [ReceiveMessageCall receive;
             Log (StreamLine streamName functionName);
             HandlerCall functionName event;
             Completion None data;
             DeleteMessageBatchCall
               {| DeleteMessageBatch.Entries :=
                    map (fun m =>
                           {| DeleteMessageBatch.Id := Message.MessageId m;
                              DeleteMessageBatch.ReceiptHandle :=
                                Message.ReceiptHandle m |}) Messages;
                  DeleteMessageBatch.QueueUrl := QueueUrl |}])%list.
Proof.
  intros receive history Hbatch Hrecv _ Hname Hevent Hrun.
  now apply next_successful_iteration.
Qed.

Lemma next_deletes_after_success_witness :
  Sample.poll (Some Sample.batch) Sample.success 1
  = (Ok tt,
     [ReceiveMessageCall Sample.receive;
      Log (StreamLine (JStr "orders") "worker");
      HandlerCall "worker" (Sample.batch_event (JStr Sample.orders_arn));
      Completion None (JStr "done");
      DeleteMessageBatchCall
        {| DeleteMessageBatch.Entries := Sample.batch_entries;
           DeleteMessageBatch.QueueUrl := Sample.url |}]).
Proof.
  apply (next_deletes_after_success Sample.plugin
           (Sample.world (Some Sample.batch) Sample.success) "worker"
           Sample.by_arn Sample.client Sample.url 0 []
           (JNum 10) (JStr "orders") Sample.batch
           (Sample.batch_event (JStr Sample.orders_arn)) (JStr "done")).
  - reflexivity.
  - reflexivity.
  - discriminate.
  - reflexivity.
  - reflexivity.
  - left. reflexivity.
Defined.

(** C2, as stated, fails: an invocation that reports an error rejects
    the promise of [next] before its closing call of itself (line 210),
    so no further receive call is made; with fuel for three iterations
    the poller stops in the first. *)
Lemma next_error_ends_loop :
  fst (Sample.poll (Some Sample.batch) Sample.failure 3)
  = Throw (Error "handler failed") /\
  List.length (receives (snd (Sample.poll (Some Sample.batch) Sample.failure 3))) = 1 /\
  List.length (receives (snd (Sample.poll (Some Sample.batch) Sample.success 3))) = 3.
Proof. repeat split. Qed.

(** C2, amended: after each iteration in which the receive call
    succeeded and the invocation, if there was one, reported success --
    whatever the delete call answered -- the loop issues another receive
    call. *)
Theorem next_receives_again
  (this : ServerlessOfflineSQS) (world : World) (functionName : string)
  (queueEvent client QueueUrl : JsVal) (fuel : nat) (t : Trace)
  (batchSize : JsVal) (response : ReceiveMessage.response) :
  let receive :=
    {| ReceiveMessage.QueueUrl := QueueUrl;
       ReceiveMessage.MaxNumberOfMessages := batchSize;
       ReceiveMessage.WaitTimeSeconds := 1 |} in
  get queueEvent "batchSize" = Ok batchSize ->
  sqs_receiveMessage world client t receive = (None, response) ->
  (forall Messages,
      ReceiveMessage.Messages response = Some Messages ->
      exists streamName event data,
        getQueueName this queueEvent = Ok streamName /\
        eventHandler_event queueEvent Messages = Ok event /\
        let history :=
          (t ++ [ReceiveMessageCall receive;
                 Log (StreamLine streamName functionName)])%list in
        (handler world history functionName event = ReturnsPromise (Ok data) \/
         handler world history functionName event = CallsDone None data)) ->
  exists iteration rest,
    receives iteration = [receive] /\
    next this world functionName queueEvent client QueueUrl (S fuel) t
    = next this world functionName queueEvent client QueueUrl fuel
        (t ++ iteration)%list /\
    snd (next this world functionName queueEvent client QueueUrl (S (S fuel)) t)
    = (t ++ iteration ++ ReceiveMessageCall receive :: rest)%list.
Proof.
  intros receive Hbatch Hrecv Hrun.
  destruct (next_iteration_completes this world functionName queueEvent client
              QueueUrl t batchSize response Hbatch Hrecv Hrun)
    as (iteration & Hone & Hstep).
  destruct (next_opens_with_receive this world functionName queueEvent client
              QueueUrl batchSize fuel (t ++ iteration)%list Hbatch) as [rest Hrest].
  exists iteration, rest. split; [assumption|]. split; [apply Hstep|].
  rewrite Hstep. fold receive in Hrest. rewrite Hrest. now rewrite <- app_assoc.
Qed.

Lemma next_receives_again_witness :
  exists iteration rest,
    receives iteration = [Sample.receive] /\
    Sample.poll (Some Sample.batch) Sample.success 1
    = next Sample.plugin (Sample.world (Some Sample.batch) Sample.success)
        "worker" Sample.by_arn Sample.client Sample.url 0 ([] ++ iteration)%list /\
    snd (Sample.poll (Some Sample.batch) Sample.success 2)
    = ([] ++ iteration ++ ReceiveMessageCall Sample.receive :: rest)%list.
Proof.
  apply (next_receives_again Sample.plugin
           (Sample.world (Some Sample.batch) Sample.success) "worker"
           Sample.by_arn Sample.client Sample.url 0 [] (JNum 10)
           {| ReceiveMessage.Messages := Some Sample.batch |}).
  - reflexivity.
  - reflexivity.
  - intros Messages E. injection E as <-.
    exists (JStr "orders"), (Sample.batch_event (JStr Sample.orders_arn)), (JStr "done").
    split; [reflexivity|]. split; [reflexivity|]. left. reflexivity.
Defined.

(** While no receive call fails and no invocation reports an error, the
    loop does not end: every iteration watched is completed and has made
    one receive call, whatever the delete calls answer. *)
Corollary next_keeps_polling
  (this : ServerlessOfflineSQS) (world : World) (functionName : string)
  (queueEvent client QueueUrl batchSize streamName : JsVal) :
  let receive :=
    {| ReceiveMessage.QueueUrl := QueueUrl;
       ReceiveMessage.MaxNumberOfMessages := batchSize;
       ReceiveMessage.WaitTimeSeconds := 1 |} in
  get queueEvent "batchSize" = Ok batchSize ->
  getQueueName this queueEvent = Ok streamName ->
  (forall t, fst (sqs_receiveMessage world client t receive) = None) ->
  (forall t event, exists data,
      handler world t functionName event = ReturnsPromise (Ok data) \/
      handler world t functionName event = CallsDone None data) ->
  forall fuel t,
    fst (next this world functionName queueEvent client QueueUrl fuel t) = Ok tt /\
    List.length
      (receives (snd (next this world functionName queueEvent client QueueUrl fuel t)))
    = List.length (receives t) + fuel.
Proof.
  intros receive Hbatch Hname Hrecv Hrun.
  induction fuel as [|fuel IH]; intros t.
  - simpl. auto.
  - destruct (sqs_receiveMessage world client t receive) as [err response] eqn:E.
    pose proof (Hrecv t) as Herr. rewrite E in Herr. simpl in Herr. subst err.
    destruct (next_iteration_completes this world functionName queueEvent client
                QueueUrl t batchSize response Hbatch E) as (iteration & Hone & Hstep).
    + intros Messages _.
      destruct (getQueueName_reads_arn this queueEvent streamName Hname) as [arn Harn].
      destruct (Hrun (t ++ [ReceiveMessageCall receive;
                            Log (StreamLine streamName functionName)])%list
                  {| Records :=
            map (fun m => {| messageId := Message.MessageId m;
                             receiptHandle := Message.ReceiptHandle m;
                             body := Message.Body m;
                             attributes := Message.Attributes m;
                             messageAttributes := Message.MessageAttributes m;
                             md5OfBody := Message.MD5OfBody m;
                             eventSource := JStr "aws:sqs";
                             eventSourceARN := arn;
                             awsRegion := JStr "us-west-2" |}) Messages |})
        as [data Hdata].
      eexists _, _, data. split; [eassumption|].
      split; [apply (eventHandler_event_map _ _ _ Harn)|]. exact Hdata.
    + rewrite Hstep. destruct (IH (t ++ iteration)%list) as [Hok Hlen].
      split; [assumption|]. rewrite Hlen, receives_app, Hone, length_app. simpl. lia.
Qed.

Example next_keeps_polling_sample :
  fst (Sample.poll (Some Sample.batch) Sample.success 5) = Ok tt /\
  List.length (receives (snd (Sample.poll (Some Sample.batch) Sample.success 5))) = 5 /\
  List.length (deletes (snd (Sample.poll (Some Sample.batch) Sample.success 5))) = 5.
Proof. repeat split. Qed.

(** C3, as stated, fails for an empty sequence: an empty array is truthy
    (line 193, and line 78 in [eventHandler]), so the handler is invoked
    with an event of no records and a delete call with no entries is
    issued. *)
Lemma next_empty_array_invokes_and_deletes :
  fst (Sample.poll (Some []) Sample.success 1) = Ok tt /\
  invocations (snd (Sample.poll (Some []) Sample.success 1))
  = [{| Records := [] |}] /\
  deletes (snd (Sample.poll (Some []) Sample.success 1))
  = [{| DeleteMessageBatch.Entries := [];
        DeleteMessageBatch.QueueUrl := Sample.url |}].
Proof. repeat split. Qed.

(** C3, amended: in every iteration in which the answer of the receive
    call has no messages field, the poller invokes no handler and issues
    no delete call: the receive call is all the iteration does before
    the loop goes on; and [eventHandler] itself, given no messages,
    calls back at once without invoking anything. *)
Theorem next_skips_absent_messages
  (this : ServerlessOfflineSQS) (world : World) (functionName : string)
  (queueEvent client QueueUrl : JsVal) (fuel : nat) (t : Trace)
  (batchSize : JsVal) :
  let receive :=
    {| ReceiveMessage.QueueUrl := QueueUrl;
       ReceiveMessage.MaxNumberOfMessages := batchSize;
       ReceiveMessage.WaitTimeSeconds := 1 |} in
  get queueEvent "batchSize" = Ok batchSize ->
  sqs_receiveMessage world client t receive
  = (None, {| ReceiveMessage.Messages := None |}) ->
  next this world functionName queueEvent client QueueUrl (S fuel) t
  = next this world functionName queueEvent client QueueUrl fuel
      (t ++ [ReceiveMessageCall receive])%list /\
  eventHandler this world queueEvent functionName None t = (Ok (None, JUndefined), t).
Proof.
  intros receive Hbatch Hrecv. split; [|reflexivity].
  rewrite next_iteration, Hbatch. cbv zeta. fold receive. rewrite Hrecv.
  reflexivity.
Qed.

Lemma next_skips_absent_messages_witness :
  Sample.poll None Sample.success 2
  = (Ok tt, [ReceiveMessageCall Sample.receive; ReceiveMessageCall Sample.receive]) /\
  eventHandler Sample.plugin (Sample.world None Sample.success) Sample.by_arn
    "worker" None []
  = (Ok (None, JUndefined), []).
Proof.
  apply (next_skips_absent_messages Sample.plugin (Sample.world None Sample.success)
           "worker" Sample.by_arn Sample.client Sample.url 1 [] (JNum 10));
    reflexivity.
Defined.

(** ** Provisioning *)

(** A rejected [createQueue] promise is the result of
    [createInitialQueue]: the error is not logged and not swallowed. *)
Lemma createInitialQueue_rejection
  (this : ServerlessOfflineSQS) (world : World) (queue client : JsVal)
  (params : CreateQueue.request) (e : JsError) (t : Trace) :
  getClient this = Ok client ->
  createInitialQueue_params queue = Ok params ->
  sqs_createQueue world client t params = Returns (Throw e) ->
  createInitialQueue this world queue t = (Throw e, (t ++ [CreateQueueCall params])%list).
Proof.
  intros Hclient Hparams Hcall.
  unfold createInitialQueue, bindM, lift, call.
  rewrite Hclient, Hparams, Hcall. reflexivity.
Qed.

(** Only a throw of the call itself reaches the [catch]. *)
Lemma createInitialQueue_throw
  (this : ServerlessOfflineSQS) (world : World) (queue client : JsVal)
  (params : CreateQueue.request) (e : JsError) (t : Trace) :
  getClient this = Ok client ->
  createInitialQueue_params queue = Ok params ->
  sqs_createQueue world client t params = Throws e ->
  createInitialQueue this world queue t
  = (Ok JUndefined, (t ++ [CreateQueueCall params; ConsoleLog e])%list).
Proof.
  intros Hclient Hparams Hcall.
  unfold createInitialQueue, bindM, lift, call, emit, ret.
  rewrite Hclient, Hparams, Hcall. now rewrite <- app_assoc.
Qed.

(** [Promise.all] rejects as soon as one of the promises does. *)
Lemma all_fulfilled_rejects {A} (settled : list (result A)) (e : JsError) :
  In (Throw e) settled -> exists e', all_fulfilled settled = Throw e'.
Proof.
  induction settled as [|r settled IH]; intros I; [contradiction|].
  destruct I as [->|I]; [now exists e|].
  destruct r as [a|e0]; [|now exists e0].
  destruct (IH I) as [e' E]. exists e'. cbn. now rewrite E.
Qed.

(** C4 fails on the code.  The backend refuses to create the queue [Q]:
    the promise [createQueue(params).promise()] rejects.  It is returned
    from inside [try] without [await] (line 160), so the [catch] of
    lines 161-163 never sees the rejection: nothing is logged, the
    promise of [createInitialQueue] rejects, [Promise.all] (line 233)
    rejects, and [offlineStartInit] ends there, before any poller is
    started.  The other queue was still requested. *)
Theorem offlineStartInit_rejected_createQueue :
  fst (offlineStartInit Sample.plugin Sample.refusing_world [])
  = Throw (Error "connect ECONNREFUSED") /\
  map CreateQueue.QueueName
    (created (snd (offlineStartInit Sample.plugin Sample.refusing_world [])))
  = [JStr "Q"; JStr "dead"] /\
  logged_errors (snd (offlineStartInit Sample.plugin Sample.refusing_world [])) = [] /\
  pollers (snd (offlineStartInit Sample.plugin Sample.refusing_world [])) = [].
Proof. repeat split. Qed.

(** What the [catch] does catch is a throw of the call itself: then the
    error is logged, and the pollers are started. *)
Example offlineStartInit_thrown_createQueue :
  fst (offlineStartInit Sample.plugin Sample.throwing_world []) = Ok tt /\
  logged_errors (snd (offlineStartInit Sample.plugin Sample.throwing_world []))
  = [Error "invalid parameters"; Error "invalid parameters"] /\
  pollers (snd (offlineStartInit Sample.plugin Sample.throwing_world []))
  = [("worker", Sample.by_arn)].
Proof. repeat split. Qed.

Lemma assoc_set_fresh {V} (k : string) (v : V) (acc : list (string * V)) :
  ~ In k (map fst acc) -> assoc_set k v acc = (acc ++ [(k, v)])%list.
Proof.
  induction acc as [|[k' v'] acc IH]; simpl; intros H; [reflexivity|].
  destruct (String.eqb_spec k k') as [->|_].
  - exfalso. apply H. now left.
  - rewrite IH by (intros I; apply H; now right). reflexivity.
Qed.

Lemma assoc_in {V} (l : list (string * V)) (k : string) (v : V) :
  NoDup (map fst l) -> In (k, v) l -> assoc k l = Some v.
Proof.
  induction l as [|[k' v'] l IH]; simpl; intros ND I; [contradiction|].
  inversion ND as [|? ? Hfresh ND']; subst.
  destruct I as [E|I].
  - injection E as -> ->. now rewrite String.eqb_refl.
  - destruct (String.eqb_spec k k') as [->|_]; [|now apply IH].
    exfalso. apply Hfresh. change k' with (fst (k', v)). now apply in_map.
Qed.

Lemma assoc_map {V W} (f : V -> W) (l : list (string * V)) (k : string) :
  assoc k (map (fun p => (fst p, f (snd p))) l) = option_map f (assoc k l).
Proof.
  induction l as [|[k' v'] l IH]; simpl; [reflexivity|].
  destruct (k =? k'); [reflexivity|apply IH].
Qed.

(** A [forEach] over the keys of an object that sets, for each key, at
    most the property of that key, builds its result in key order. *)
Lemma forEach_collect {X} (iteratee : list (string * JsVal) -> string ->
                                      result (list (string * JsVal)))
  (out : string * X -> option JsVal) (items : list (string * X)) :
  (forall acc p, In p items ->
     iteratee acc (fst p)
     = Ok (match out p with
           | Some x => assoc_set (fst p) x acc
           | None => acc
           end)) ->
  NoDup (map fst items) ->
  forall acc,
    (forall p, In p items -> ~ In (fst p) (map fst acc)) ->
    forEach iteratee (map fst items) acc
    = Ok (acc ++ flat_map (fun p => match out p with
                                    | Some x => [(fst p, x)]
                                    | None => []
                                    end) items)%list.
Proof.
  induction items as [|p items IH]; intros Hit ND acc Hfresh.
  - simpl. now rewrite app_nil_r.
  - inversion ND as [|? ? Hp ND']; subst.
    cbn [map forEach flat_map]. rewrite (Hit acc p) by now left.
    cbn [bind]. rewrite IH; try assumption.
    + destruct (out p) as [x|].
      * rewrite assoc_set_fresh by (apply Hfresh; now left).
        now rewrite <- app_assoc.
      * reflexivity.
    + intros acc' q Hq. apply Hit. now right.
    + intros q Hq. destruct (out p) as [x|]; [|apply Hfresh; now right].
      rewrite assoc_set_fresh by (apply Hfresh; now left).
      rewrite map_app, in_app_iff. intros [I|[E|[]]].
      * now apply (Hfresh q (or_intror Hq)).
      * apply Hp. simpl in E. rewrite E. now apply in_map.
Qed.

Lemma flat_map_singleton {A B} (f : A -> B) (l : list A) :
  flat_map (fun x => [f x]) l = map f l.
Proof. induction l as [|x l IH]; cbn; [reflexivity | now rewrite IH]. Qed.

Lemma nested_attribute_resolved (leaves : list (string * Leaf)) :
  NoDup (map fst leaves) ->
  nested_attribute (attribute_value (AttrNested leaves))
  = Ok (backend_attribute (AttrNested leaves)).
Proof.
  intros ND. unfold nested_attribute. cbn [attribute_value keys bind].
  rewrite map_map. cbn [fst].
  rewrite (forEach_collect _ (fun p => Some (resolved_leaf (snd p))) leaves).
  - cbn [bind app backend_attribute]. now rewrite flat_map_singleton.
  - intros acc [k l] I. cbn [fst snd get].
    rewrite (assoc_map leaf_value), (assoc_in leaves k l ND I). cbn.
    destruct l; reflexivity.
  - assumption.
  - intros p _ [].
Qed.

(** The digits at the two ends of the safe range. *)
Example number_toString_safe_range :
  isSafeInteger MAX_SAFE_INTEGER = true /\
  isSafeInteger (MAX_SAFE_INTEGER + 1) = false /\
  number_toString MAX_SAFE_INTEGER = "9007199254740991" /\
  number_toString (- MAX_SAFE_INTEGER) = "-9007199254740991" /\
  number_toString 0 = "0".
Proof. repeat split. Qed.

(** C8: for every queue resource definition, [createInitialQueue] builds
    the attribute map the spec words: the [QueueName] key is skipped, a
    top-level string or number is stringified, and a nested mapping has
    its string and numeric leaves stringified and each reference leaf
    replaced by element 0 of the reference, and is serialized to one
    JSON string; every attribute is a string.  The numbers of the
    definition, those inside a reference included, are safe integers:
    there [number_toString] is what [toString] and [JSON.stringify]
    print. *)
Theorem createInitialQueue_params_attributes (d : QueueResourceDefinition) :
  well_keyed d ->
  safe_numbers (definition_value d) = true ->
  exists QueueName,
    get (definition_value d) "QueueName" = Ok QueueName /\
    createInitialQueue_params (definition_value d)
    = Ok {| CreateQueue.QueueName := QueueName;
            CreateQueue.Attributes := backend_attributes d |} /\
    Forall (fun p => typeof (snd p) = "string") (backend_attributes d).
Proof.
  intros [ND Hnested] _.
  destruct (get_defined (definition_value d) "QueueName") as [QueueName HQ];
    try discriminate.
  exists QueueName. split; [assumption|]. split.
  - unfold createInitialQueue_params. rewrite HQ.
    cbn [bind definition_value keys]. rewrite map_map. cbn [fst].
    rewrite (forEach_collect _
               (fun p => if fst p =? "QueueName" then None
                         else Some (backend_attribute (snd p))) d).
    + cbn [bind app]. do 2 f_equal. unfold backend_attributes.
      clear. induction d as [|[k a] d IH]; [reflexivity|].
      cbn [flat_map filter fst snd].
      destruct (k =? "QueueName"); cbn [negb map app fst snd]; now rewrite IH.
    + intros acc [k a] I. cbn [fst snd].
      destruct (k =? "QueueName"); [reflexivity|].
      unfold definition_value. cbn [get].
      rewrite (assoc_map attribute_value), (assoc_in d k a ND I).
      cbn [option_map bind].
      destruct a as [s|n|leaves]; try reflexivity.
      rewrite (nested_attribute_resolved leaves (Hnested k leaves I)).
      reflexivity.
    + assumption.
    + intros p _ [].
  - unfold backend_attributes. apply Forall_forall. intros [k x] I.
    apply in_map_iff in I. destruct I as ([k' a] & E & _). injection E as _ <-.
    destruct a; reflexivity.
Qed.

Lemma createInitialQueue_params_attributes_witness :
  exists QueueName,
    get Sample.orders_properties "QueueName" = Ok QueueName /\
    createInitialQueue_params Sample.orders_properties
    = Ok {| CreateQueue.QueueName := QueueName;
            CreateQueue.Attributes :=
              [("VisibilityTimeout", JStr "30");
               ("RedrivePolicy",
                JStr ("{" ++ quote "maxReceiveCount" ++ ":" ++ quote "5" ++ ","
                          ++ quote "deadLetterTargetArn" ++ ":" ++ quote "DLQ"
                          ++ "}"))] |} /\
    Forall (fun p => typeof (snd p) = "string")
      (backend_attributes Sample.orders_definition).
Proof.
  apply (createInitialQueue_params_attributes Sample.orders_definition).
  - split.
    + repeat constructor; simpl; intuition discriminate.
    + intros k leaves [E|[E|[E|[]]]]; try discriminate E.
      injection E as _ <-. repeat constructor; simpl; intuition discriminate.
  - reflexivity.
Defined.

(** * Further properties *)

(** ** Configuration and client *)

Lemma getConfig_truthy (svc : JsVal) (pluginName : string) :
  truthy (getConfig svc pluginName) = true.
Proof.
  unfold getConfig, or_else.
  destruct (truthy (and_get (and_get svc "custom") pluginName)) eqn:E; auto.
Qed.

(** X1: [getConfig] is the lookup [service.custom[pluginName]] with the
    default [{}]: the entry when it can be read and is truthy, the empty
    object in every other case -- the service, [custom] or the entry
    missing or falsy.  It never throws and never returns a falsy value. *)
Theorem getConfig_entry_or_default (svc : JsVal) (pluginName : string) :
  getConfig svc pluginName
  = match get svc "custom" with
    | Ok custom =>
        match get custom pluginName with
        | Ok entry => if truthy entry then entry else JObj []
        | Throw _ => JObj []
        end
    | Throw _ => JObj []
    end
  /\ truthy (getConfig svc pluginName) = true.
Proof.
  split; [|apply getConfig_truthy].
  unfold getConfig, or_else in *.
  destruct (truthy (and_get (and_get svc "custom") pluginName)) eqn:E.
  - destruct (and_get_truthy _ _ E) as [Tc Ge].
    destruct (and_get_truthy _ _ Tc) as [_ Gc].
    rewrite Gc, Ge, E. reflexivity.
  - destruct (get svc "custom") as [custom|] eqn:Gc; [|reflexivity].
    destruct (get custom pluginName) as [entry|] eqn:Ge; [|reflexivity].
    destruct (truthy entry) eqn:Te; [|reflexivity].
    destruct (and_get_owner custom pluginName entry Ge Te) as [Ee Tcu].
    destruct (and_get_owner svc "custom" custom Gc Tcu) as [Ec _].
    rewrite Ec, Ee in E. congruence.
Qed.

Lemma forEach_total {S A} (iteratee : S -> A -> result S) (f : S -> A -> S)
  (l : list A) (s : S) :
  (forall s x, In x l -> iteratee s x = Ok (f s x)) ->
  forEach iteratee l s = Ok (fold_left f l s).
Proof.
  revert s. induction l as [|x l IH]; intros s H; [reflexivity|].
  cbn [forEach fold_left]. rewrite H by now left. cbn [bind].
  apply IH. intros s' y I. apply H. now right.
Qed.

Lemma keys_get (v : JsVal) (ks : list string) (k : string) :
  keys v = Ok ks -> exists x, get v k = Ok x.
Proof.
  intros H. apply get_defined; intros ->; discriminate H.
Qed.

Lemma truthy_keys (v : JsVal) : truthy v = true -> exists ks, keys v = Ok ks.
Proof. destruct v; simpl; try discriminate; eauto. Qed.

(** The copy [Object.assign] makes of the own properties of [source]. *)
Lemma assign_total (source : JsVal) (ks all : list string)
  (target : list (string * JsVal)) :
  keys source = Ok all ->
  forEach (fun target k => v <- get source k ; Ok (assoc_set k v target)) ks target
  = Ok (fold_left (fun target k =>
                     assoc_set k (match get source k with
                                  | Ok v => v
                                  | Throw _ => JUndefined
                                  end) target) ks target).
Proof.
  intros Hk. apply forEach_total. intros s k _.
  destruct (keys_get source all k Hk) as [x ->]. reflexivity.
Qed.

(** X2: for an instance built by the constructor, building the
    configuration that [getClient] passes to [new SQS] fails in one way
    only, with the [TypeError] of reading a region off nothing: the
    configuration is built exactly when [options] is neither
    [undefined] nor [null] and either [options.region] is truthy or
    [service.provider] is there to be asked for its region.  What the
    SDK's constructor then does with it is not part of the statement. *)
Theorem awsConfig_built_iff (svc opts : JsVal) :
  ((exists built, awsConfig (constructor svc opts) = Ok built) <->
   (exists optRegion,
       get opts "region" = Ok optRegion /\
       (truthy optRegion = true \/
        exists provider provRegion,
          get svc "provider" = Ok provider /\
          get provider "region" = Ok provRegion)))
  /\ (forall e, awsConfig (constructor svc opts) = Throw e -> e = TypeError).
Proof.
  unfold awsConfig, constructor.
  cbn [options service config].
  destruct (truthy_keys _ (getConfig_truthy svc "serverless-offline-sqs-local"))
    as [ks Hks].
  assert (Hget : forall v k, (exists x, get v k = Ok x) \/ get v k = Throw TypeError).
  { intros v k. destruct v; simpl; eauto.
    - destruct (k =? "length"); eauto.
    - destruct (k =? "length"); eauto.
    - destruct (assoc k props); eauto. }
  rewrite Hks.
  destruct (Hget opts "region") as [[optRegion Ho]|Ho]; rewrite Ho; cbn [bind].
  - destruct (truthy optRegion) eqn:To; cbn [bind].
    + rewrite (assign_total _ ks ks _ Hks). cbn [bind]. split.
      * split; [intros _; eauto|intros _; eauto].
      * discriminate.
    + destruct (Hget svc "provider") as [[provider Hp]|Hp]; rewrite Hp; cbn [bind].
      * destruct (Hget provider "region") as [[provRegion Hr]|Hr]; rewrite Hr;
          cbn [bind].
        -- rewrite (assign_total _ ks ks _ Hks). cbn [bind]. split.
           ++ split; [intros _|intros _; eauto].
              exists optRegion. split; [reflexivity|]. right.
              exists provider, provRegion. auto.
           ++ discriminate.
        -- split.
           ++ split; [intros [c Hc]; discriminate Hc|].
              intros (r & Er & [Tr|(p' & pr & Ep & Epr)]).
              ** injection Er as <-. congruence.
              ** injection Ep as <-. congruence.
           ++ intros e [= <-]. reflexivity.
      * split.
        -- split; [intros [c Hc]; discriminate Hc|].
           intros (r & Er & [Tr|(p' & pr & Ep & Epr)]).
           ++ injection Er as <-. congruence.
           ++ discriminate Ep.
        -- intros e [= <-]. reflexivity.
  - split.
    + split; [intros [c Hc]; discriminate Hc|].
      intros (r & Er & _). discriminate Er.
    + intros e [= <-]. reflexivity.
Qed.

Lemma assoc_assoc_set {V} (k k' : string) (v : V) (l : list (string * V)) :
  assoc k (assoc_set k' v l) = if k =? k' then Some v else assoc k l.
Proof.
  induction l as [|[k0 v0] l IH]; cbn [assoc_set assoc].
  - destruct (k =? k'); reflexivity.
  - destruct (String.eqb_spec k' k0) as [->|N]; cbn [assoc].
    + destruct (k =? k0); reflexivity.
    + rewrite IH. destruct (String.eqb_spec k k0) as [->|_]; [|reflexivity].
      destruct (String.eqb_spec k0 k'); [congruence|reflexivity].
Qed.

Lemma assoc_of_key {V} (l : list (string * V)) (k : string) :
  existsb (String.eqb k) (map fst l)
  = match assoc k l with Some _ => true | None => false end.
Proof.
  induction l as [|[k0 v0] l IH]; cbn; [reflexivity|].
  destruct (k =? k0); [reflexivity|apply IH].
Qed.

(** After [Object.assign(target, source)] a key of [source] has the
    value [source] gives it, and every other key is as in [target]. *)
Lemma assign_assoc (cprops : list (string * JsVal)) (ks : list string)
  (target res : list (string * JsVal)) :
  (forall k, In k ks -> In k (map fst cprops)) ->
  forEach (fun target k => v <- get (JObj cprops) k ; Ok (assoc_set k v target))
    ks target = Ok res ->
  forall k, assoc k res
            = if existsb (String.eqb k) ks then assoc k cprops else assoc k target.
Proof.
  revert target. induction ks as [|k' ks IH]; intros target Hin H k.
  - injection H as <-. reflexivity.
  - cbn [forEach get] in H.
    assert (Hk' : exists x, assoc k' cprops = Some x).
    { pose proof (assoc_of_key cprops k') as E.
      destruct (assoc k' cprops); [eauto|].
      assert (I : In k' (map fst cprops)) by (apply Hin; now left).
      assert (T : existsb (String.eqb k') (map fst cprops) = true).
      { apply existsb_exists. exists k'. split; [assumption|apply String.eqb_refl]. }
      congruence. }
    destruct Hk' as [x Hx]. rewrite Hx in H. cbn [bind] in H.
    rewrite (IH _ (fun k0 I => Hin k0 (or_intror I)) H k).
    cbn [existsb]. rewrite assoc_assoc_set.
    destruct (String.eqb_spec k k') as [->|_]; cbn [orb]; [|reflexivity].
    rewrite Hx. now destruct (existsb (String.eqb k') ks).
Qed.

(** X3: the client [getClient] returns is the plugin's configuration
    with a region added when it has none: [options.region] when that is
    truthy, else the provider's region, else "us-west-2".  A region in
    the configuration wins over all three, and every other key of the
    configuration reaches the client unchanged. *)
Theorem getClient_assigns
  (this : ServerlessOfflineSQS) (cprops : list (string * JsVal)) (client : JsVal) :
  config this = JObj cprops ->
  getClient this = Ok client ->
  exists region awsConfig optRegion,
    client = JObj awsConfig /\
    get (options this) "region" = Ok optRegion /\
    (truthy optRegion = true -> region = optRegion) /\
    (truthy optRegion = false ->
     exists provider provRegion,
       get (service this) "provider" = Ok provider /\
       get provider "region" = Ok provRegion /\
       region = or_else provRegion (JStr "us-west-2")) /\
    forall k, assoc k awsConfig
              = match assoc k cprops with
                | Some v => Some v
                | None => if k =? "region" then Some region else None
                end.
Proof.
  intros Hc H. unfold getClient, awsConfig in H. rewrite Hc in H.
  destruct (get (options this) "region") as [optRegion|] eqn:Ho; [|discriminate].
  cbn [bind] in H.
  assert (Hregion : exists region,
             (if truthy optRegion then Ok optRegion
              else provider <- get (service this) "provider" ;
                   provRegion <- get provider "region" ;
                   Ok (or_else provRegion (JStr "us-west-2"))) = Ok region).
  { destruct (truthy optRegion); [eauto|].
    destruct (get (service this) "provider") as [provider|]; [|discriminate].
    cbn [bind] in *.
    destruct (get provider "region"); cbn [bind] in *; [eauto|discriminate]. }
  destruct Hregion as [region Hregion]. rewrite Hregion in H. cbn [bind keys] in H.
  destruct (forEach _ (map fst cprops) [("region", region)]) as [awsConfig|] eqn:Hf;
    [|discriminate].
  injection H as <-.
  exists region, awsConfig, optRegion. split; [reflexivity|]. split; [reflexivity|].
  split; [|split].
  - intros T. rewrite T in Hregion. congruence.
  - intros T. rewrite T in Hregion.
    destruct (get (service this) "provider") as [provider|] eqn:Hp; [|discriminate].
    cbn [bind] in Hregion.
    destruct (get provider "region") as [provRegion|] eqn:Hr; [|discriminate].
    exists provider, provRegion. cbn [bind] in Hregion.
    injection Hregion as <-. repeat split. exact Hr.
  - intros k. rewrite (assign_assoc cprops _ _ _ (fun _ I => I) Hf k).
    rewrite assoc_of_key. destruct (assoc k cprops); [reflexivity|].
    cbn [assoc]. destruct (k =? "region"); reflexivity.
Qed.

Lemma getClient_assigns_witness :
  exists region awsConfig optRegion,
    JObj [("region", JStr "elasticmq"); ("endpoint", JStr "http://localhost:9324")]
    = JObj awsConfig /\
    get (options More.configured) "region" = Ok optRegion /\
    (truthy optRegion = true -> region = optRegion) /\
    (truthy optRegion = false ->
     exists provider provRegion,
       get (service More.configured) "provider" = Ok provider /\
       get provider "region" = Ok provRegion /\
       region = or_else provRegion (JStr "us-west-2")) /\
    forall k, assoc k awsConfig
              = match assoc k [("endpoint", JStr "http://localhost:9324");
                               ("region", JStr "elasticmq")] with
                | Some v => Some v
                | None => if k =? "region" then Some region else None
                end.
Proof.
  apply (getClient_assigns More.configured
           [("endpoint", JStr "http://localhost:9324"); ("region", JStr "elasticmq")]);
    reflexivity.
Defined.

(** ** The queue name *)

Lemma split_length (s : string) : List.length (split ":" s) = S (colons s).
Proof.
  induction s as [|c s IH]; [reflexivity|]. cbn [split colons].
  destruct (Ascii.eqb c ":"); cbn [List.length]; [now rewrite IH|].
  destruct (split ":" s); [discriminate IH|exact IH].
Qed.

Lemma split_fields_colon_free (s : string) : Forall colon_free (split ":" s).
Proof.
  induction s as [|c s IH]; cbn [split].
  - constructor; [|constructor]. intros [].
  - destruct (Ascii.eqb_spec c ":"%char) as [->|N].
    + constructor; [intros []|exact IH].
    + destruct (split ":" s) as [|f fs].
      * constructor; [|constructor]. intros [E|[]]. congruence.
      * inversion IH as [|? ? Hf Hfs]; subst. constructor; [|assumption].
        intros [E|I]; [congruence|now apply Hf].
Qed.

(** X4: on a string [extractQueueNameFromARN] never throws; it returns
    [undefined] exactly when the string has fewer than five colons, and
    otherwise a string without a colon. *)
Theorem extractQueueNameFromARN_sixth (s : string) :
  exists v,
    extractQueueNameFromARN (JStr s) = Ok v /\
    (v = JUndefined <-> colons s < 5) /\
    (forall name, v = JStr name -> colon_free name).
Proof.
  unfold extractQueueNameFromARN.
  destruct (nth_error (split ":" s) 5) as [name|] eqn:E.
  - exists (JStr name). split; [reflexivity|]. split.
    + split; [discriminate|]. intros L.
      assert (N : nth_error (split ":" s) 5 = None)
        by (apply nth_error_None; rewrite split_length; lia).
      congruence.
    + intros name' [= <-]. apply nth_error_In in E.
      exact (proj1 (Forall_forall _ _) (split_fields_colon_free s) name E).
  - exists JUndefined. split; [reflexivity|]. split; [|discriminate].
    split; [intros _|reflexivity].
    apply nth_error_None in E. rewrite split_length in E. lia.
Qed.

(** X5: [getQueueName] returns a string or [undefined], and fails only
    with a [TypeError] or with the error "QueueName not found". *)
Theorem getQueueName_outcomes (this : ServerlessOfflineSQS) (queueEvent : JsVal) :
  match getQueueName this queueEvent with
  | Ok name => name = JUndefined \/ exists s, name = JStr s
  | Throw e => e = TypeError \/ e = Error "QueueName not found"
  end.
Proof.
  assert (Hex : forall v, match extractQueueNameFromARN v with
                          | Ok name => name = JUndefined \/ exists s, name = JStr s
                          | Throw e => e = TypeError \/ e = Error "QueueName not found"
                          end).
  { intros v. unfold extractQueueNameFromARN. destruct v; auto.
    destruct (nth_error (split ":" s) 5); eauto. }
  assert (Hget : forall v k, (exists x, get v k = Ok x) \/ get v k = Throw TypeError).
  { intros v k. destruct v; simpl; eauto.
    - destruct (k =? "length"); eauto.
    - destruct (k =? "length"); eauto.
    - destruct (assoc k props); eauto. }
  unfold getQueueName.
  destruct (typeof queueEvent =? "string"); [apply Hex|].
  destruct (Hget queueEvent "arn") as [[arn ->] | ->]; cbn [bind]; [|auto].
  destruct (typeof arn =? "string"); [apply Hex|].
  destruct (Hget queueEvent "queueName") as [[queueName ->] | ->]; cbn [bind]; [|auto].
  destruct (typeof queueName =? "string") eqn:Tq.
  { right. now apply typeof_string. }
  destruct (Hget arn "Fn::GetAtt") as [[GetAtt ->] | ->]; cbn [bind]; [|auto].
  destruct (truthy GetAtt); [|auto].
  destruct (first_of GetAtt) as [ResourceName|e] eqn:F; cbn [bind].
  - rewrite guarded_chain_is_catalog.
    destruct (catalog_QueueName _ _); eauto.
  - left. destruct GetAtt as [| | | |s|elems|]; simpl in F; try congruence;
      [destruct s|destruct elems]; congruence.
Qed.

(** X6: a reference written in the short string form,
    [Fn::GetAtt: "Resource.Attribute"], is destructured like a list: the
    resource looked up in the catalog is the one named by the first
    character of the string. *)
Theorem getQueueName_short_reference
  (this : ServerlessOfflineSQS) (queueEvent arn queueName : JsVal)
  (c : ascii) (rest : string) :
  typeof queueEvent <> "string" ->
  get queueEvent "arn" = Ok arn ->
  typeof arn <> "string" ->
  get queueEvent "queueName" = Ok queueName ->
  typeof queueName <> "string" ->
  get arn "Fn::GetAtt" = Ok (JStr (String c rest)) ->
  getQueueName this queueEvent
  = match catalog_QueueName (service this) (String c EmptyString) with
    | Some name => Ok (JStr name)
    | None => Throw (Error "QueueName not found")
    end.
Proof.
  intros Hq Harn Hnot Hqn Hqnot Hatt. unfold getQueueName.
  rewrite (typeof_not_string _ Hq), Harn. cbn [bind].
  rewrite (typeof_not_string _ Hnot), Hqn. cbn [bind].
  rewrite (typeof_not_string _ Hqnot), Hatt. cbn [bind truthy first_of].
  cbn [String.eqb negb]. cbn [ToString].
  apply guarded_chain_is_catalog.
Qed.

Lemma getQueueName_short_reference_witness :
  catalog_QueueName (service Sample.plugin) "Orders" = Some "Q" /\
  getQueueName Sample.plugin More.short_reference
  = Throw (Error "QueueName not found").
Proof.
  split; [reflexivity|].
  apply (getQueueName_short_reference Sample.plugin More.short_reference
           (JObj [("Fn::GetAtt", JStr "Orders.Arn")]) JUndefined "O" "rders.Arn").
  - simpl. discriminate.
  - reflexivity.
  - simpl. discriminate.
  - reflexivity.
  - simpl. discriminate.
  - reflexivity.
Defined.

(** ** Invocations *)

Lemma map_result_length {A B} (f : A -> result B) (l : list A) (l' : list B) :
  map_result f l = Ok l' -> List.length l' = List.length l.
Proof.
  revert l'. induction l as [|x l IH]; intros l' H.
  - injection H as <-. reflexivity.
  - cbn [map_result] in H. destruct (f x) as [y|]; [|discriminate].
    cbn [bind] in H. destruct (map_result f l) as [ys|]; [|discriminate].
    injection H as <-. cbn. now rewrite (IH ys).
Qed.

Lemma map_result_map {A B C} (f : A -> result B) (g : B -> C) (h : A -> C)
  (l : list A) (l' : list B) :
  (forall x y, f x = Ok y -> g y = h x) ->
  map_result f l = Ok l' -> map g l' = map h l.
Proof.
  intros Hgh. revert l'. induction l as [|x l IH]; intros l' H.
  - injection H as <-. reflexivity.
  - cbn [map_result] in H. destruct (f x) as [y|] eqn:E; [|discriminate].
    cbn [bind] in H. destruct (map_result f l) as [ys|]; [|discriminate].
    injection H as <-. cbn. now rewrite (Hgh x y E), (IH ys).
Qed.

Lemma eventHandler_event_length
  (queueEvent : JsVal) (messages : list Message.t) (event : SQSEvent) :
  eventHandler_event queueEvent messages = Ok event ->
  List.length (Records event) = List.length messages.
Proof.
  unfold eventHandler_event. intros H.
  destruct (map_result _ messages) as [records|] eqn:E; [|discriminate].
  injection H as <-. exact (map_result_length _ _ _ E).
Qed.

(** The entries the loop deletes are those of the records it handed
    over. *)
Lemma eventHandler_event_entries
  (queueEvent : JsVal) (messages : list Message.t) (event : SQSEvent) :
  eventHandler_event queueEvent messages = Ok event ->
  map record_entry (Records event) = map deleteEntry messages.
Proof.
  unfold eventHandler_event. intros H.
  destruct (map_result _ messages) as [records|] eqn:E; [|discriminate].
  injection H as <-. cbn [Records].
  refine (map_result_map _ _ _ _ _ _ E).
  intros m r Hr. destruct (get queueEvent "arn"); [|discriminate].
  injection Hr as <-. reflexivity.
Qed.

(** X7: the two calling conventions of a handler come to one completion
    signal.  A handler that returns a promise and a handler that calls
    [done] -- with [(null, res)] where the promise resolves with [res],
    with the error alone where it rejects -- leave the same trace and
    give [cb] the same arguments. *)
Theorem eventHandler_one_signal
  (this : ServerlessOfflineSQS) (promising calling : World) (queueEvent : JsVal)
  (functionName : string) (messages : option (list Message.t)) (t : Trace)
  (promise : result JsVal) :
  (forall h event, handler promising h functionName event = ReturnsPromise promise) ->
  (forall h event,
      handler calling h functionName event
      = match promise with
        | Ok res => CallsDone None res
        | Throw error => CallsDone (Some error) JUndefined
        end) ->
  eventHandler this promising queueEvent functionName messages t
  = eventHandler this calling queueEvent functionName messages t.
Proof.
  intros Hp Hc. destruct messages as [batch|]; [|reflexivity].
  rewrite !eventHandler_batch.
  destruct (getQueueName this queueEvent); [|reflexivity].
  destruct (eventHandler_event queueEvent batch); [|reflexivity].
  cbv zeta. rewrite Hp, Hc. destruct promise; reflexivity.
Qed.

Lemma eventHandler_one_signal_witness :
  eventHandler Sample.plugin (Sample.world None (ReturnsPromise (Throw (Error "boom"))))
    Sample.by_arn "worker" (Some Sample.batch) []
  = eventHandler Sample.plugin
      (Sample.world None (CallsDone (Some (Error "boom")) JUndefined))
      Sample.by_arn "worker" (Some Sample.batch) [].
Proof.
  apply (eventHandler_one_signal Sample.plugin
           (Sample.world None (ReturnsPromise (Throw (Error "boom"))))
           (Sample.world None (CallsDone (Some (Error "boom")) JUndefined))
           Sample.by_arn "worker" (Some Sample.batch) []
           (Throw (Error "boom")));
    reflexivity.
Defined.

(** X8: when [eventHandler] calls back for a batch, it has logged the
    stream line, invoked the handler once with an event of one record
    per message, and the completion has fired once, with the very
    arguments the callback gets.  When it throws instead, no completion
    has fired, the handler was invoked at most once, and nothing was
    asked of the queue. *)
Theorem eventHandler_callback
  (this : ServerlessOfflineSQS) (world : World) (queueEvent : JsVal)
  (functionName : string) (messages : list Message.t) (t : Trace) :
  match eventHandler this world queueEvent functionName (Some messages) t with
  | (Ok (err, data), t') =>
      exists streamName event,
        getQueueName this queueEvent = Ok streamName /\
        eventHandler_event queueEvent messages = Ok event /\
        List.length (Records event) = List.length messages /\
        t' = (t ++ [Log (StreamLine streamName functionName);
                    HandlerCall functionName event;
                    Completion err data])%list
  | (Throw e, t') =>
      exists added,
        t' = (t ++ added)%list /\
        completions added = [] /\
        List.length (invocations added) <= 1 /\
        receives added = [] /\ deletes added = []
  end.
Proof.
  rewrite eventHandler_batch.
  destruct (getQueueName this queueEvent) as [streamName|e].
  - destruct (eventHandler_event queueEvent messages) as [event|e] eqn:E; cbv zeta.
    + pose proof (eventHandler_event_length _ _ _ E) as L.
      destruct (handler world _ functionName event) as [e|[res|e]|err data].
      * exists [Log (StreamLine streamName functionName); HandlerCall functionName event].
        rewrite <- app_assoc. cbn. auto.
      * exists streamName, event. rewrite <- !app_assoc. cbn. auto.
      * exists streamName, event. rewrite <- !app_assoc. cbn. auto.
      * exists streamName, event. rewrite <- !app_assoc. cbn. auto.
    + exists [Log (StreamLine streamName functionName)]. cbn. auto.
  - exists []. rewrite app_nil_r. cbn. auto.
Qed.

(** ** Runs of the polling loop *)

(** One iteration either runs to its end, and the loop goes on from the
    trace it leaves, or is interrupted, and the loop ends there; which
    of the two does not depend on how long the loop is watched. *)
Lemma next_step
  (this : ServerlessOfflineSQS) (world : World) (functionName : string)
  (queueEvent client QueueUrl : JsVal) (t : Trace) :
  (exists iteration,
      completed_iteration (receive_request queueEvent QueueUrl) functionName
        iteration /\
      forall fuel,
        next this world functionName queueEvent client QueueUrl (S fuel) t
        = next this world functionName queueEvent client QueueUrl fuel
            (t ++ iteration)%list)
  \/
  (exists e last,
      interrupted_iteration (receive_request queueEvent QueueUrl) functionName
        last /\
      forall fuel,
        next this world functionName queueEvent client QueueUrl (S fuel) t
        = (Throw e, (t ++ last)%list)).
Proof.
  unfold receive_request, lodash_get.
  destruct (get queueEvent "batchSize") as [batchSize|e] eqn:Hb.
  2:{ right. exists e, []. split; [constructor|]. intros fuel.
      rewrite next_iteration, Hb, app_nil_r. reflexivity. }
  set (receive := {| ReceiveMessage.QueueUrl := QueueUrl;
                     ReceiveMessage.MaxNumberOfMessages := batchSize;
                     ReceiveMessage.WaitTimeSeconds := 1 |}).
  destruct (sqs_receiveMessage world client t receive) as [[err|] data] eqn:Hr.
  { right. exists err, [ReceiveMessageCall receive]. split; [constructor|].
    intros fuel. rewrite next_iteration, Hb. cbv zeta. fold receive.
    rewrite Hr. reflexivity. }
  destruct (ReceiveMessage.Messages data) as [Messages|] eqn:Hm.
  2:{ left. exists [ReceiveMessageCall receive]. split; [constructor|].
      intros fuel. rewrite next_iteration, Hb. cbv zeta. fold receive.
      rewrite Hr, Hm. reflexivity. }
  assert (Hnext : forall fuel,
             next this world functionName queueEvent client QueueUrl (S fuel) t
             = match fromCallback
                       (eventHandler this world queueEvent functionName
                          (Some Messages)) (t ++ [ReceiveMessageCall receive])%list with
               | (Throw e, t') => (Throw e, t')
               | (Ok _, t') =>
                   next this world functionName queueEvent client QueueUrl fuel
                     (t' ++ [DeleteMessageBatchCall
                               {| DeleteMessageBatch.Entries :=
                                    map deleteEntry Messages;
                                  DeleteMessageBatch.QueueUrl := QueueUrl |}])%list
               end).
  { intros fuel. rewrite next_iteration, Hb. cbv zeta. fold receive.
    rewrite Hr, Hm. reflexivity. }
  unfold fromCallback, bindM in Hnext. rewrite eventHandler_batch in Hnext.
  destruct (getQueueName this queueEvent) as [streamName|e].
  2:{ right. exists e, [ReceiveMessageCall receive]. split; [constructor|].
      intros fuel. rewrite Hnext. reflexivity. }
  destruct (eventHandler_event queueEvent Messages) as [event|e] eqn:He.
  2:{ right. exists e, [ReceiveMessageCall receive;
                        Log (StreamLine streamName functionName)].
      split; [constructor|]. intros fuel. rewrite Hnext, <- app_assoc. reflexivity. }
  cbv zeta in Hnext.
  pose proof (eventHandler_event_entries _ _ _ He) as Hentries.
  destruct (handler world _ functionName event) as [e|[res|e]|[e|] d].
  - right. exists e, [ReceiveMessageCall receive;
                      Log (StreamLine streamName functionName);
                      HandlerCall functionName event].
    split; [constructor|]. intros fuel. rewrite Hnext, <- !app_assoc. reflexivity.
  - left. eexists. split; [apply (iteration_batch _ _ streamName event res)|].
    intros fuel. rewrite Hnext. cbn [fst snd ret]. rewrite <- !app_assoc.
    cbn [app ReceiveMessage.QueueUrl]. now rewrite Hentries.
  - right. exists e, [ReceiveMessageCall receive;
                      Log (StreamLine streamName functionName);
                      HandlerCall functionName event;
                      Completion (Some e) JUndefined].
    split; [constructor|]. intros fuel. rewrite Hnext. cbn [fst snd throw].
    rewrite <- !app_assoc. reflexivity.
  - right. exists e, [ReceiveMessageCall receive;
                      Log (StreamLine streamName functionName);
                      HandlerCall functionName event;
                      Completion (Some e) d].
    split; [constructor|]. intros fuel. rewrite Hnext. cbn [fst snd throw].
    rewrite <- !app_assoc. reflexivity.
  - left. eexists. split; [apply (iteration_batch _ _ streamName event d)|].
    intros fuel. rewrite Hnext. cbn [fst snd ret]. rewrite <- !app_assoc.
    cbn [app ReceiveMessage.QueueUrl]. now rewrite Hentries.
Qed.

(** A run of the loop is a sequence of completed iterations, followed,
    when the loop ended, by the iteration that was interrupted. *)
Lemma next_run
  (this : ServerlessOfflineSQS) (world : World) (functionName : string)
  (queueEvent client QueueUrl : JsVal) (fuel : nat) (t : Trace) :
  exists iterations last,
    snd (next this world functionName queueEvent client QueueUrl fuel t)
    = (t ++ concat iterations ++ last)%list /\
    Forall (completed_iteration (receive_request queueEvent QueueUrl) functionName)
      iterations /\
    match fst (next this world functionName queueEvent client QueueUrl fuel t) with
    | Ok _ => last = [] /\ List.length iterations = fuel
    | Throw _ =>
        List.length iterations < fuel /\
        interrupted_iteration (receive_request queueEvent QueueUrl) functionName last
    end.
Proof.
  revert t. induction fuel as [|fuel IH]; intros t.
  - exists [], []. cbn. rewrite app_nil_r. auto.
  - destruct (next_step this world functionName queueEvent client QueueUrl t)
      as [(iteration & Hc & Hstep)|(e & last & Hi & Hstep)].
    + rewrite Hstep. destruct (IH (t ++ iteration)%list) as (its & last & Htr & Hits & Hres).
      exists (iteration :: its), last. split; [|split].
      * rewrite Htr. cbn [concat]. now rewrite <- !app_assoc.
      * now constructor.
      * destruct (fst (next _ _ _ _ _ _ fuel _)); cbn [List.length];
          intuition lia.
    + rewrite Hstep. exists [], last. cbn. split; [reflexivity|].
      split; [constructor|]. split; [lia|assumption].
Qed.

(** X9: a loop that is still running after [fuel] iterations has left
    exactly [fuel] completed iterations in the trace, each one a lone
    receive call or a receive call, the stream line, one handler call,
    its successful completion and the delete of exactly the records
    handed over, on the queue the receive call asked. *)
Theorem next_completed_run
  (this : ServerlessOfflineSQS) (world : World) (functionName : string)
  (queueEvent client QueueUrl : JsVal) (fuel : nat) (t : Trace) :
  fst (next this world functionName queueEvent client QueueUrl fuel t) = Ok tt ->
  exists iterations,
    List.length iterations = fuel /\
    Forall (completed_iteration (receive_request queueEvent QueueUrl) functionName)
      iterations /\
    snd (next this world functionName queueEvent client QueueUrl fuel t)
    = (t ++ concat iterations)%list.
Proof.
  intros Hok.
  destruct (next_run this world functionName queueEvent client QueueUrl fuel t)
    as (its & last & Htr & Hits & Hres).
  rewrite Hok in Hres. destruct Hres as [-> Hlen].
  exists its. rewrite app_nil_r in Htr. auto.
Qed.

Lemma next_completed_run_witness :
  exists iterations,
    List.length iterations = 2 /\
    Forall (completed_iteration (receive_request Sample.by_arn Sample.url) "worker")
      iterations /\
    snd (Sample.poll (Some Sample.batch) Sample.success 2)
    = ([] ++ concat iterations)%list.
Proof.
  apply (next_completed_run Sample.plugin
           (Sample.world (Some Sample.batch) Sample.success) "worker"
           Sample.by_arn Sample.client Sample.url 2 []).
  reflexivity.
Defined.

Lemma interrupted_no_delete (receive : ReceiveMessage.request) (f : string)
  (last : Trace) :
  interrupted_iteration receive f last -> deletes last = [].
Proof. intros H. destruct H; reflexivity. Qed.

(** X10: a loop that has ended left fewer completed iterations than it
    was watched for, followed by the iteration that was interrupted:
    nothing at all, or a receive call and at most the stream line, one
    handler call and a completion that reported an error.  No delete
    call is made in that iteration. *)
Theorem next_ended_run
  (this : ServerlessOfflineSQS) (world : World) (functionName : string)
  (queueEvent client QueueUrl : JsVal) (fuel : nat) (t : Trace) (e : JsError) :
  fst (next this world functionName queueEvent client QueueUrl fuel t) = Throw e ->
  exists iterations last,
    List.length iterations < fuel /\
    Forall (completed_iteration (receive_request queueEvent QueueUrl) functionName)
      iterations /\
    interrupted_iteration (receive_request queueEvent QueueUrl) functionName last /\
    deletes last = [] /\
    snd (next this world functionName queueEvent client QueueUrl fuel t)
    = (t ++ concat iterations ++ last)%list.
Proof.
  intros Hthrow.
  destruct (next_run this world functionName queueEvent client QueueUrl fuel t)
    as (its & last & Htr & Hits & Hres).
  rewrite Hthrow in Hres. destruct Hres as [Hlen Hlast].
  exists its, last. repeat split; try assumption.
  exact (interrupted_no_delete _ _ _ Hlast).
Qed.

Lemma next_ended_run_witness :
  exists iterations last,
    List.length iterations < 3 /\
    Forall (completed_iteration (receive_request Sample.by_arn Sample.url) "worker")
      iterations /\
    interrupted_iteration (receive_request Sample.by_arn Sample.url) "worker" last /\
    deletes last = [] /\
    snd (Sample.poll (Some Sample.batch) Sample.failure 3)
    = ([] ++ concat iterations ++ last)%list.
Proof.
  apply (next_ended_run Sample.plugin
           (Sample.world (Some Sample.batch) Sample.failure) "worker"
           Sample.by_arn Sample.client Sample.url 3 [] (Error "handler failed")).
  reflexivity.
Defined.

(** Where a delete call stands in a sequence of iterations. *)
Lemma delete_in_iterations (receive : ReceiveMessage.request) (f : string)
  (iterations : list Trace) (last pre post : Trace)
  (batch : DeleteMessageBatch.request) :
  Forall (completed_iteration receive f) iterations ->
  (forall b, ~ In (DeleteMessageBatchCall b) last) ->
  (concat iterations ++ last)%list = (pre ++ DeleteMessageBatchCall batch :: post)%list ->
  exists pre' streamName event data,
    pre = (pre' ++ [Log (StreamLine streamName f);
                    HandlerCall f event;
                    Completion None data])%list /\
    batch = {| DeleteMessageBatch.Entries := map record_entry (Records event);
               DeleteMessageBatch.QueueUrl := ReceiveMessage.QueueUrl receive |}.
Proof.
  intros Hits Hlast. revert pre. induction Hits as [|i its Hi Hits IH]; intros pre H.
  - cbn in H. exfalso. apply (Hlast batch). rewrite H. apply in_elt.
  - cbn [concat] in H. rewrite <- app_assoc in H. destruct Hi.
    + destruct pre as [|e0 pre]; cbn in H; [discriminate|].
      injection H as _ H. destruct (IH pre H) as (pre' & s & ev & d & -> & ->).
      exists (e0 :: pre'), s, ev, d. split; reflexivity.
    + destruct pre as [|e0 [|e1 [|e2 [|e3 [|e4 pre]]]]]; cbn in H; try discriminate.
      * injection H as <- <- <- <- <- _.
        exists [ReceiveMessageCall receive], streamName, event, data.
        split; reflexivity.
      * injection H as _ _ _ _ _ H.
        destruct (IH pre H) as (pre' & s & ev & d & -> & ->).
        exists (e0 :: e1 :: e2 :: e3 :: e4 :: pre'), s, ev, d. split; reflexivity.
Qed.

(** X11: in any run of the loop, however it goes, a delete call comes
    directly after the successful completion of an invocation, and it
    deletes exactly the records of the event that invocation was given,
    on the queue URL of the poller. *)
Theorem next_delete_follows_completion
  (this : ServerlessOfflineSQS) (world : World) (functionName : string)
  (queueEvent client QueueUrl : JsVal) (fuel : nat) (t pre post : Trace)
  (batch : DeleteMessageBatch.request) :
  snd (next this world functionName queueEvent client QueueUrl fuel t)
  = (t ++ pre ++ DeleteMessageBatchCall batch :: post)%list ->
  exists pre' streamName event data,
    pre = (pre' ++ [Log (StreamLine streamName functionName);
                    HandlerCall functionName event;
                    Completion None data])%list /\
    batch = {| DeleteMessageBatch.Entries := map record_entry (Records event);
               DeleteMessageBatch.QueueUrl := QueueUrl |}.
Proof.
  intros H.
  destruct (next_run this world functionName queueEvent client QueueUrl fuel t)
    as (its & last & Htr & Hits & Hres).
  rewrite Htr in H. apply app_inv_head in H.
  apply (delete_in_iterations (receive_request queueEvent QueueUrl) functionName
           its last pre post batch Hits); [|exact H].
  intros b I.
  destruct (fst (next _ _ _ _ _ _ _ _)).
  - destruct Hres as [-> _]. destruct I.
  - destruct Hres as [_ Hlast].
    pose proof (interrupted_no_delete _ _ _ Hlast) as D.
    assert (In b (deletes last)) by (apply in_flat_map; eexists; split; [exact I|now left]).
    rewrite D in *. contradiction.
Qed.

Lemma next_delete_follows_completion_witness :
  exists pre' streamName event data,
    [ReceiveMessageCall Sample.receive;
     Log (StreamLine (JStr "orders") "worker");
     HandlerCall "worker" (Sample.batch_event (JStr Sample.orders_arn));
     Completion None (JStr "done")]
    = (pre' ++ [Log (StreamLine streamName "worker");
                HandlerCall "worker" event;
                Completion None data])%list /\
    {| DeleteMessageBatch.Entries := Sample.batch_entries;
       DeleteMessageBatch.QueueUrl := Sample.url |}
    = {| DeleteMessageBatch.Entries := map record_entry (Records event);
         DeleteMessageBatch.QueueUrl := Sample.url |}.
Proof.
  apply (next_delete_follows_completion Sample.plugin
           (Sample.world (Some Sample.batch) Sample.success) "worker"
           Sample.by_arn Sample.client Sample.url 2 []
           [ReceiveMessageCall Sample.receive;
            Log (StreamLine (JStr "orders") "worker");
            HandlerCall "worker" (Sample.batch_event (JStr Sample.orders_arn));
            Completion None (JStr "done")]
           [ReceiveMessageCall Sample.receive;
            Log (StreamLine (JStr "orders") "worker");
            HandlerCall "worker" (Sample.batch_event (JStr Sample.orders_arn));
            Completion None (JStr "done");
            DeleteMessageBatchCall
              {| DeleteMessageBatch.Entries := Sample.batch_entries;
                 DeleteMessageBatch.QueueUrl := Sample.url |}]).
  reflexivity.
Defined.


Lemma completed_counts (receive : ReceiveMessage.request) (f : string)
  (iterations : list Trace) :
  Forall (completed_iteration receive f) iterations ->
  receives (concat iterations) = repeat receive (List.length iterations) /\
  List.length (deletes (concat iterations))
  = List.length (invocations (concat iterations)) /\
  List.length (invocations (concat iterations)) <= List.length iterations /\
  url_lookups (concat iterations) = [].
Proof.
  unfold receives, deletes, invocations, url_lookups.
  induction 1 as [|i its Hi Hits IH]; [cbn; auto|].
  cbn [concat List.length repeat]. rewrite !flat_map_app, !length_app.
  destruct IH as (Hr & Hd & Hi' & Hu). rewrite Hr, Hd, Hu.
  destruct Hi; cbn; repeat split; try reflexivity; lia.
Qed.

Lemma invocations_app (t l : Trace) :
  invocations (t ++ l)%list = (invocations t ++ invocations l)%list.
Proof. apply flat_map_app. Qed.

Lemma deletes_app (t l : Trace) :
  deletes (t ++ l)%list = (deletes t ++ deletes l)%list.
Proof. apply flat_map_app. Qed.

Lemma interrupted_counts (receive : ReceiveMessage.request) (f : string)
  (last : Trace) :
  interrupted_iteration receive f last ->
  exists n,
    n <= 1 /\
    receives last = repeat receive n /\
    List.length (invocations last) <= n /\
    deletes last = [].
Proof.
  intros H. destruct H; [exists 0|exists 1|exists 1|exists 1|exists 1]; cbn; auto.
Qed.

(** X13: a run watched for [fuel] iterations makes at most [fuel]
    receive calls, all of them the same request (the queue URL found at
    the start, [queueEvent.batchSize] messages at most, one second of
    wait); it invokes the handler at most once per receive call and
    deletes at most once per invocation. *)
Theorem next_one_batch_at_a_time
  (this : ServerlessOfflineSQS) (world : World) (functionName : string)
  (queueEvent client QueueUrl : JsVal) (fuel : nat) (t : Trace) :
  exists added n,
    snd (next this world functionName queueEvent client QueueUrl fuel t)
    = (t ++ added)%list /\
    n <= fuel /\
    receives added = repeat (receive_request queueEvent QueueUrl) n /\
    List.length (invocations added) <= n /\
    List.length (deletes added) <= List.length (invocations added).
Proof.
  destruct (next_run this world functionName queueEvent client QueueUrl fuel t)
    as (its & last & Htr & Hits & Hres).
  destruct (completed_counts _ _ _ Hits) as (Hr & Hd & Hi & _).
  exists (concat its ++ last)%list.
  destruct (fst (next _ _ _ _ _ _ _ _)).
  - destruct Hres as [-> Hlen]. exists (List.length its).
    rewrite app_nil_r in *. repeat split; try assumption; lia.
  - destruct Hres as [Hlen Hlast].
    destruct (interrupted_counts _ _ _ Hlast) as (n & Hn & Hrl & Hil & Hdl).
    exists (List.length its + n).
    rewrite receives_app, invocations_app, deletes_app, !length_app, Hr, Hrl, Hdl.
    rewrite repeat_app. cbn [List.length]. repeat split; try assumption; try lia.
    apply Nat.add_le_mono; assumption.
Qed.

(** ** Starting a poller *)

(** X14: with a client at hand, a poller whose trigger cannot be
    resolved rejects without logging and without a call to the backend;
    one whose queue URL cannot be found rejects after that one lookup
    and never polls; otherwise the poller logs the queue name, looks the
    URL up once and runs the loop on that URL, which never looks it up
    again. *)
Theorem createQueueReadable_startup
  (this : ServerlessOfflineSQS) (world : World) (fuel : nat)
  (functionName : string) (queueEvent client : JsVal) (t : Trace) :
  getClient this = Ok client ->
  match getQueueName this queueEvent with
  | Throw e =>
      createQueueReadable this world fuel functionName queueEvent t = (Throw e, t)
  | Ok queueName =>
      let started :=
        (t ++ [Log (QueueLine queueName); GetQueueUrlCall queueName])%list in
      match sqs_getQueueUrl world client (t ++ [Log (QueueLine queueName)])%list
              queueName with
      | (Some err, _) =>
          createQueueReadable this world fuel functionName queueEvent t
          = (Throw err, started)
      | (None, found) =>
          createQueueReadable this world fuel functionName queueEvent t
          = next this world functionName queueEvent client
              (GetQueueUrl.QueueUrl found) fuel started /\
          exists polled,
            snd (createQueueReadable this world fuel functionName queueEvent t)
            = (started ++ polled)%list /\
            url_lookups polled = []
      end
  end.
Proof.
  intros Hclient. unfold createQueueReadable, bindM, lift, emit, fromCallback, call.
  rewrite Hclient.
  destruct (getQueueName this queueEvent) as [queueName|e]; [|reflexivity].
  cbv zeta. unfold bindM.
  destruct (sqs_getQueueUrl world client _ queueName) as [[err|] found];
    cbn [fst snd throw ret]; rewrite <- app_assoc; cbn [app]; [reflexivity|].
  split; [reflexivity|].
  destruct (next_run this world functionName queueEvent client
              (GetQueueUrl.QueueUrl found) fuel
              (t ++ [Log (QueueLine queueName); GetQueueUrlCall queueName])%list)
    as (its & last & Htr & Hits & Hres).
  exists (concat its ++ last)%list. split; [exact Htr|].
  destruct (completed_counts _ _ _ Hits) as (_ & _ & _ & Hu).
  unfold url_lookups in *. rewrite flat_map_app, Hu.
  destruct (fst (next _ _ _ _ _ _ _ _)).
  - destruct Hres as [-> _]. reflexivity.
  - destruct Hres as [_ Hlast]. destruct Hlast; reflexivity.
Qed.

Lemma createQueueReadable_startup_witness :
  createQueueReadable Sample.plugin More.lost_world 4 "worker" Sample.by_arn []
  = (Throw (Error "NonExistentQueue"),
     [Log (QueueLine (JStr "orders")); GetQueueUrlCall (JStr "orders")]).
Proof.
  apply (createQueueReadable_startup Sample.plugin More.lost_world 4 "worker"
           Sample.by_arn (JObj [("region", JStr "eu-west-1")]) []).
  reflexivity.
Defined.

(** ** The parameters of a queue *)

Lemma get_throws (v : JsVal) (k : string) (e : JsError) :
  get v k = Throw e -> e = TypeError.
Proof.
  destruct v; simpl; try discriminate; try congruence.
  - destruct (k =? "length"); discriminate.
  - destruct (k =? "length"); discriminate.
  - destruct (assoc k props); discriminate.
Qed.

Lemma keys_throws (v : JsVal) (e : JsError) : keys v = Throw e -> e = TypeError.
Proof. destruct v; simpl; try discriminate; congruence. Qed.

Lemma forEach_invariant {S A} (I : S -> Prop) (iteratee : S -> A -> result S)
  (l : list A) (s res : S) :
  (forall s x s', iteratee s x = Ok s' -> I s -> I s') ->
  I s -> forEach iteratee l s = Ok res -> I res.
Proof.
  intros Hstep. revert s. induction l as [|x l IH]; intros s Hs H.
  - injection H as <-. exact Hs.
  - cbn [forEach] in H. destruct (iteratee s x) as [s'|] eqn:E; [|discriminate].
    exact (IH s' (Hstep s x s' E Hs) H).
Qed.

Lemma forEach_throws {S A} (P : JsError -> Prop) (iteratee : S -> A -> result S)
  (l : list A) (s : S) (e : JsError) :
  (forall s x e, iteratee s x = Throw e -> P e) ->
  forEach iteratee l s = Throw e -> P e.
Proof.
  intros Hstep. revert s. induction l as [|x l IH]; intros s H; [discriminate|].
  cbn [forEach] in H. destruct (iteratee s x) as [s'|e'] eqn:E.
  - exact (IH s' H).
  - injection H as <-. exact (Hstep s x e' E).
Qed.

Lemma forEach_reaches {S A} (iteratee : S -> A -> result S) (l : list A) (s : S)
  (x : A) :
  In x l -> (forall s, exists e, iteratee s x = Throw e) ->
  exists e, forEach iteratee l s = Throw e.
Proof.
  intros I Hx. revert s. induction l as [|y l IH]; intros s; [contradiction|].
  cbn [forEach]. destruct I as [->|I].
  - destruct (Hx s) as [e ->]. now exists e.
  - destruct (iteratee s y) as [s'|e]; [apply (IH I)|now exists e].
Qed.

Lemma nested_attribute_string (v json : JsVal) :
  nested_attribute v = Ok json -> exists s, json = JStr s.
Proof.
  unfold nested_attribute. destruct (keys v) as [attrs|]; [|discriminate].
  cbn [bind]. destruct (forEach _ attrs []) as [built|]; [|discriminate].
  cbn [bind]. intros [= <-]. unfold stringify. cbn [JSON_stringify]. eauto.
Qed.

Lemma nested_attribute_throws (v : JsVal) (e : JsError) :
  nested_attribute v = Throw e -> e = TypeError.
Proof.
  unfold nested_attribute. destruct (keys v) as [attrs|e0] eqn:K.
  - cbn [bind]. destruct (forEach _ attrs []) as [built|e0] eqn:F; [discriminate|].
    cbn [bind]. intros [= <-].
    refine (forEach_throws (fun e => e = TypeError) _ _ _ _ _ F).
    intros acc attr e' H.
    destruct (get v attr) as [leaf|e1] eqn:G;
      [|injection H as <-; exact (get_throws _ _ _ G)].
    cbn [bind] in H. destruct leaf; try discriminate H.
    all: match type of H with
         | context [get ?l "Fn::GetAtt"] =>
             destruct (get l "Fn::GetAtt") as [g|e2] eqn:G1;
             [|injection H as <-; exact (get_throws _ _ _ G1)]
         end;
         cbn [bind] in H; destruct (get g "0") as [x|e3] eqn:G2;
         [discriminate|injection H as <-; exact (get_throws _ _ _ G2)].
  - cbn [bind]. intros [= <-]. exact (keys_throws _ _ K).
Qed.

(** What [createInitialQueue] makes of the value of one attribute. *)
Lemma attribute_step (queue : JsVal) (acc acc' : list (string * JsVal))
  (attribute : string) :
  (if attribute =? "QueueName" then Ok acc
   else
     value <- get queue attribute ;
     match value with
     | JStr s => Ok (assoc_set attribute (JStr s) acc)
     | JNum n => Ok (assoc_set attribute (JStr (number_toString n)) acc)
     | _ => json <- nested_attribute value ; Ok (assoc_set attribute json acc)
     end) = Ok acc' ->
  (attribute = "QueueName" /\ acc' = acc) \/
  (attribute <> "QueueName" /\
   exists value out s,
     get queue attribute = Ok value /\
     match value with
     | JStr s => Ok (JStr s)
     | JNum n => Ok (JStr (number_toString n))
     | _ => nested_attribute value
     end = Ok out /\
     out = JStr s /\
     acc' = assoc_set attribute out acc).
Proof.
  destruct (String.eqb_spec attribute "QueueName") as [->|N].
  - intros [= <-]. now left.
  - intros H. right. split; [assumption|].
    destruct (get queue attribute) as [value|] eqn:G; [|discriminate].
    cbn [bind] in H. exists value.
    destruct value as [| |b|n|s|elems|props].
    4:{ injection H as <-. exists (JStr (number_toString n)), (number_toString n).
        auto. }
    4:{ injection H as <-. exists (JStr s), s. auto. }
    all: match type of H with
         | context [nested_attribute ?v] =>
             destruct (nested_attribute v) as [json|] eqn:Nj; [|discriminate];
             destruct (nested_attribute_string _ _ Nj) as [s ->];
             injection H as <-; exists (JStr s), s; auto
         end.
Qed.

(** X15: whatever the definition, the parameters [createInitialQueue]
    builds carry the definition's [QueueName] as the queue name, never
    as an attribute, and every attribute value is a string. *)
Theorem createInitialQueue_params_strings
  (queue : JsVal) (params : CreateQueue.request) :
  createInitialQueue_params queue = Ok params ->
  get queue "QueueName" = Ok (CreateQueue.QueueName params) /\
  assoc "QueueName" (CreateQueue.Attributes params) = None /\
  Forall (fun p => exists s, snd p = JStr s) (CreateQueue.Attributes params).
Proof.
  unfold createInitialQueue_params. intros H.
  destruct (get queue "QueueName") as [name|]; [|discriminate].
  cbn [bind] in H. destruct (keys queue) as [attributes|]; [|discriminate].
  cbn [bind] in H.
  destruct (forEach _ attributes []) as [Attributes|] eqn:F; [|discriminate].
  injection H as <-. cbn [CreateQueue.QueueName CreateQueue.Attributes].
  split; [reflexivity|].
  refine (forEach_invariant
            (fun acc => assoc "QueueName" acc = None /\
                        Forall (fun p => exists s, snd p = JStr s) acc)
            _ _ _ _ _ _ F); [|split; [reflexivity|constructor]].
  intros acc attribute acc' Hstep [Hq Hs].
  destruct (attribute_step queue acc acc' attribute Hstep)
    as [[_ ->]|(N & value & out & s & _ & _ & -> & ->)]; [auto|].
  split.
  - rewrite assoc_assoc_set.
    destruct (String.eqb_spec "QueueName" attribute); [congruence|assumption].
  - clear - Hs. induction acc as [|[k v] acc IH]; cbn [assoc_set].
    + constructor; [cbn; eauto|constructor].
    + inversion Hs; subst. destruct (attribute =? k).
      * constructor; [cbn; eauto|assumption].
      * constructor; [assumption|auto].
Qed.

Lemma createInitialQueue_params_strings_witness :
  get More.fifo_properties "QueueName" = Ok (JStr "jobs.fifo") /\
  assoc "QueueName" [("FifoQueue", JStr "{}"); ("DelaySeconds", JStr "5")] = None /\
  Forall (fun p => exists s, snd p = JStr s)
    [("FifoQueue", JStr "{}"); ("DelaySeconds", JStr "5")].
Proof.
  apply (createInitialQueue_params_strings More.fifo_properties
           {| CreateQueue.QueueName := JStr "jobs.fifo";
              CreateQueue.Attributes :=
                [("FifoQueue", JStr "{}"); ("DelaySeconds", JStr "5")] |}).
  reflexivity.
Defined.

(** X16: [createInitialQueue_params] fails with a [TypeError] and with
    nothing else, and it does fail when the definition holds a [null]
    for an attribute other than [QueueName]. *)
Theorem createInitialQueue_params_TypeError :
  (forall queue e, createInitialQueue_params queue = Throw e -> e = TypeError) /\
  (forall props k,
      assoc k props = Some JNull -> k <> "QueueName" ->
      createInitialQueue_params (JObj props) = Throw TypeError).
Proof.
  assert (Honly : forall queue e,
             createInitialQueue_params queue = Throw e -> e = TypeError).
  { intros queue e. unfold createInitialQueue_params.
    destruct (get queue "QueueName") as [name|e0] eqn:G;
      [|intros [= <-]; exact (get_throws _ _ _ G)].
    cbn [bind]. destruct (keys queue) as [attributes|e0] eqn:K;
      [|intros [= <-]; exact (keys_throws _ _ K)].
    cbn [bind].
    destruct (forEach _ attributes []) as [Attributes|e0] eqn:F; [discriminate|].
    intros [= <-].
    refine (forEach_throws (fun e => e = TypeError) _ _ _ _ _ F).
    intros acc attribute e' H.
    destruct (attribute =? "QueueName"); [discriminate|].
    destruct (get queue attribute) as [value|e1] eqn:G1;
      [|injection H as <-; exact (get_throws _ _ _ G1)].
    cbn [bind] in H. destruct value; try discriminate H.
    all: match type of H with
         | context [nested_attribute ?v] =>
             destruct (nested_attribute v) as [json|e2] eqn:Nj;
             [discriminate|injection H as <-; exact (nested_attribute_throws _ _ Nj)]
         end. }
  split; [exact Honly|].
  intros props k Hk N.
  assert (Hthrows : exists e, createInitialQueue_params (JObj props) = Throw e).
  { unfold createInitialQueue_params. cbn [get keys].
    destruct (assoc "QueueName" props); cbn [bind].
    all: match goal with
         | |- exists e, bind (forEach ?f ?l ?s) _ = Throw e =>
             destruct (forEach_reaches f l s k) as [e He];
             [|
              |rewrite He; now exists e]
         end.
    all: try (pose proof (assoc_of_key props k) as E; rewrite Hk in E;
              apply existsb_exists in E; destruct E as (k' & I & Ek);
              apply String.eqb_eq in Ek; now subst k').
    all: intros acc; destruct (String.eqb_spec k "QueueName"); [congruence|];
      cbn [get]; rewrite Hk; cbn; eauto. }
  destruct Hthrows as [e He]. rewrite He. f_equal. exact (Honly _ _ He).
Qed.

Lemma createInitialQueue_params_TypeError_witness :
  createInitialQueue_params More.null_properties = Throw TypeError.
Proof.
  apply (proj2 createInitialQueue_params_TypeError
           [("QueueName", JStr "jobs"); ("RedrivePolicy", JNull)] "RedrivePolicy").
  - reflexivity.
  - discriminate.
Defined.

(** After the loop over the keys [ks] of the definition, the attribute
    of a key among them is what its own value gives, and every other
    attribute -- [QueueName] too -- is as it was. *)
Lemma attributes_by_key (props : list (string * JsVal)) (ks : list string)
  (acc res : list (string * JsVal)) (k : string) :
  forEach
    (fun acc attribute =>
       if attribute =? "QueueName" then Ok acc
       else
         value <- get (JObj props) attribute ;
         match value with
         | JStr s => Ok (assoc_set attribute (JStr s) acc)
         | JNum n => Ok (assoc_set attribute (JStr (number_toString n)) acc)
         | _ => json <- nested_attribute value ;
                Ok (assoc_set attribute json acc)
         end) ks acc = Ok res ->
  if (negb (k =? "QueueName") && existsb (String.eqb k) ks)%bool
  then exists value out,
      get (JObj props) k = Ok value /\
      match value with
      | JStr s => Ok (JStr s)
      | JNum n => Ok (JStr (number_toString n))
      | _ => nested_attribute value
      end = Ok out /\
      assoc k res = Some out
  else assoc k res = assoc k acc.
Proof.
  revert acc. induction ks as [|k' ks IH]; intros acc H.
  - injection H as <-. rewrite andb_false_r. reflexivity.
  - cbn [forEach] in H.
    match type of H with
    | bind ?step _ = _ => destruct step as [acc'|] eqn:Hstep; [|discriminate]
    end.
    cbn [bind] in H. specialize (IH acc' H). cbn [existsb].
    destruct (attribute_step (JObj props) acc acc' k' Hstep)
      as [[-> ->]|(N & value & out & s & G & Hout & _ & ->)].
    + destruct (String.eqb_spec k "QueueName") as [->|_]; [exact IH|].
      cbn [negb andb orb] in *. exact IH.
    + destruct (String.eqb_spec k "QueueName") as [->|Nk].
      * cbn [negb andb] in *. rewrite IH, assoc_assoc_set.
        destruct (String.eqb_spec "QueueName" k'); [congruence|reflexivity].
      * cbn [negb andb] in *.
        destruct (existsb (String.eqb k) ks); [rewrite orb_true_r; exact IH|].
        rewrite orb_false_r. rewrite IH, assoc_assoc_set.
        destruct (String.eqb_spec k k') as [->|_]; [|reflexivity].
        exists value, out. auto.
Qed.

(** X17: a boolean attribute, such as [FifoQueue: true], is neither a
    string nor a number, so it is treated as a nested mapping without
    keys: the backend is sent the string of an empty JSON object. *)
Theorem createInitialQueue_params_boolean
  (props : list (string * JsVal)) (k : string) (b : bool)
  (params : CreateQueue.request) :
  assoc k props = Some (JBool b) ->
  k <> "QueueName" ->
  createInitialQueue_params (JObj props) = Ok params ->
  assoc k (CreateQueue.Attributes params) = Some (JStr "{}").
Proof.
  intros Hk N H. unfold createInitialQueue_params in H.
  destruct (get (JObj props) "QueueName") as [name|]; [|discriminate].
  cbn [bind keys] in H.
  destruct (forEach _ (map fst props) []) as [Attributes|] eqn:F; [|discriminate].
  injection H as <-. cbn [CreateQueue.Attributes].
  pose proof (attributes_by_key props _ _ _ k F) as A.
  rewrite assoc_of_key, Hk in A.
  destruct (String.eqb_spec k "QueueName"); [congruence|].
  cbn [negb andb] in A. destruct A as (value & out & G & Hout & ->).
  cbn [get] in G. rewrite Hk in G. injection G as <-.
  cbn in Hout. congruence.
Qed.

Lemma createInitialQueue_params_boolean_witness :
  assoc "FifoQueue" [("FifoQueue", JStr "{}"); ("DelaySeconds", JStr "5")]
  = Some (JStr "{}").
Proof.
  apply (createInitialQueue_params_boolean
           [("QueueName", JStr "jobs.fifo"); ("FifoQueue", JBool true);
            ("DelaySeconds", JNum 5)]
           "FifoQueue" true
           {| CreateQueue.QueueName := JStr "jobs.fifo";
              CreateQueue.Attributes :=
                [("FifoQueue", JStr "{}"); ("DelaySeconds", JStr "5")] |}).
  - reflexivity.
  - discriminate.
  - reflexivity.
Defined.

(** X18: the attributes sent are those of the keys of the definition
    other than [QueueName], no more and no fewer. *)
Theorem createInitialQueue_params_keys
  (props : list (string * JsVal)) (params : CreateQueue.request) (k : string) :
  createInitialQueue_params (JObj props) = Ok params ->
  (assoc k (CreateQueue.Attributes params) <> None <->
   k <> "QueueName" /\ assoc k props <> None).
Proof.
  intros H. unfold createInitialQueue_params in H.
  destruct (get (JObj props) "QueueName") as [name|]; [|discriminate].
  cbn [bind keys] in H.
  destruct (forEach _ (map fst props) []) as [Attributes|] eqn:F; [|discriminate].
  injection H as <-. cbn [CreateQueue.Attributes].
  pose proof (attributes_by_key props _ _ _ k F) as A.
  rewrite assoc_of_key in A.
  destruct (String.eqb_spec k "QueueName") as [->|N]; cbn [negb andb] in A.
  - rewrite A. cbn. intuition congruence.
  - destruct (assoc k props) as [v|].
    + destruct A as (value & out & _ & _ & ->). intuition congruence.
    + rewrite A. cbn. intuition congruence.
Qed.

Lemma createInitialQueue_params_keys_witness :
  assoc "DelaySeconds" [("FifoQueue", JStr "{}"); ("DelaySeconds", JStr "5")] <> None
  <-> "DelaySeconds" <> "QueueName" /\
      assoc "DelaySeconds"
        [("QueueName", JStr "jobs.fifo"); ("FifoQueue", JBool true);
         ("DelaySeconds", JNum 5)] <> None.
Proof.
  apply (createInitialQueue_params_keys
           [("QueueName", JStr "jobs.fifo"); ("FifoQueue", JBool true);
            ("DelaySeconds", JNum 5)]
           {| CreateQueue.QueueName := JStr "jobs.fifo";
              CreateQueue.Attributes :=
                [("FifoQueue", JStr "{}"); ("DelaySeconds", JStr "5")] |}
           "DelaySeconds").
  reflexivity.
Defined.

(** ** Provisioning and bootstrap *)

(** X19: once the client and the parameters are there,
    [createInitialQueue] makes one [createQueue] call.  What the call
    itself throws is logged and swallowed, and the promise resolves with
    [undefined]; a promise the call returns is handed on as it settles,
    fulfilled or rejected, and nothing is logged. *)
Theorem createInitialQueue_catch
  (this : ServerlessOfflineSQS) (world : World) (queue client : JsVal)
  (params : CreateQueue.request) (t : Trace) :
  getClient this = Ok client ->
  createInitialQueue_params queue = Ok params ->
  match sqs_createQueue world client t params with
  | Throws error =>
      createInitialQueue this world queue t
      = (Ok JUndefined, (t ++ [CreateQueueCall params; ConsoleLog error])%list)
  | Returns promise =>
      createInitialQueue this world queue t
      = (promise, (t ++ [CreateQueueCall params])%list)
  end.
Proof.
  intros Hclient Hparams.
  unfold createInitialQueue, bindM, lift, call, emit, ret.
  rewrite Hclient, Hparams.
  destruct (sqs_createQueue world client t params) as [error|[a|e]];
    rewrite <- ?app_assoc; reflexivity.
Qed.

Lemma createInitialQueue_catch_witness :
  createInitialQueue Sample.plugin Sample.throwing_world More.fifo_properties []
  = (Ok JUndefined,
     [CreateQueueCall
        {| CreateQueue.QueueName := JStr "jobs.fifo";
           CreateQueue.Attributes :=
             [("FifoQueue", JStr "{}"); ("DelaySeconds", JStr "5")] |};
      ConsoleLog (Error "invalid parameters")]).
Proof.
  apply (createInitialQueue_catch Sample.plugin Sample.throwing_world
           More.fifo_properties (JObj [("region", JStr "eu-west-1")])
           {| CreateQueue.QueueName := JStr "jobs.fifo";
              CreateQueue.Attributes :=
                [("FifoQueue", JStr "{}"); ("DelaySeconds", JStr "5")] |} []);
    reflexivity.
Defined.

Lemma emits_ret {A} (P : Event -> Prop) (a : A) : emits P (ret a).
Proof. intros t. exists []. cbn. rewrite app_nil_r. auto. Qed.

Lemma emits_throw {A} (P : Event -> Prop) (e : JsError) : emits P (@throw A e).
Proof. intros t. exists []. cbn. rewrite app_nil_r. auto. Qed.

Lemma emits_lift {A} (P : Event -> Prop) (r : result A) : emits P (lift r).
Proof. intros t. exists []. cbn. rewrite app_nil_r. auto. Qed.

Lemma emits_emit (P : Event -> Prop) (e : Event) : P e -> emits P (emit e).
Proof. intros H t. exists [e]. cbn. auto. Qed.

Lemma emits_call {A} (P : Event -> Prop) (e : Event) (oracle : Trace -> A) :
  P e -> emits P (call e oracle).
Proof. intros H t. exists [e]. cbn. auto. Qed.

Lemma emits_bindM {A B} (P : Event -> Prop) (m : M A) (k : A -> M B) :
  emits P m -> (forall a, emits P (k a)) -> emits P (bindM m k).
Proof.
  intros Hm Hk t. unfold bindM. destruct (Hm t) as (added & E & F).
  destruct (m t) as [[a|e] t']; cbn in E; subst t'.
  - destruct (Hk a (t ++ added)%list) as (more & E' & F').
    exists (added ++ more)%list. rewrite E', <- app_assoc. split; [reflexivity|].
    apply Forall_app. auto.
  - exists added. auto.
Qed.

Lemma emits_weaken {A} (P Q : Event -> Prop) (m : M A) :
  (forall e, P e -> Q e) -> emits P m -> emits Q m.
Proof.
  intros H Hm t. destruct (Hm t) as (added & E & F). exists added.
  split; [assumption|]. eapply Forall_impl; eauto.
Qed.

Lemma emits_createInitialQueue
  (this : ServerlessOfflineSQS) (world : World) (queue : JsVal) :
  emits provisioning_event (createInitialQueue this world queue).
Proof.
  unfold createInitialQueue.
  apply emits_bindM; [apply emits_lift|intros client].
  apply emits_bindM; [apply emits_lift|intros params].
  apply emits_bindM; [now apply emits_call|intros [error|promise]].
  - apply emits_bindM; [now apply emits_emit|intros; apply emits_ret].
  - apply emits_lift.
Qed.

Lemma emits_Promise_all {A} (P : Event -> Prop) (promises : list (M A)) :
  Forall (emits P) promises -> emits P (Promise_all promises).
Proof.
  intros H t. unfold Promise_all.
  assert (S : exists added,
             snd (settle_all promises t) = (t ++ added)%list /\ Forall P added).
  { revert t. induction H as [|p ps Hp Hps IH]; intros t.
    - exists []. cbn. rewrite app_nil_r. auto.
    - cbn [settle_all]. destruct (Hp t) as (added & E & F).
      destruct (p t) as [r t']. cbn in E. subst t'.
      destruct (IH (t ++ added)%list) as (more & E' & F').
      destruct (settle_all ps (t ++ added)%list) as [rs t'']. cbn in E'. subst t''.
      exists (added ++ more)%list. cbn. rewrite <- app_assoc. split; [reflexivity|].
      apply Forall_app. auto. }
  destruct S as (added & E & F). destruct (settle_all promises t) as [rs t'].
  exists added. auto.
Qed.

Lemma pollers_app (t l : Trace) :
  pollers (t ++ l)%list = (pollers t ++ pollers l)%list.
Proof. apply flat_map_app. Qed.

Lemma created_app (t l : Trace) :
  created (t ++ l)%list = (created t ++ created l)%list.
Proof. apply flat_map_app. Qed.

Lemma no_start_no_poller (added : Trace) :
  Forall not_a_start added -> pollers added = [].
Proof.
  induction 1 as [|e l He Hl IH]; [reflexivity|].
  unfold pollers in *. cbn [flat_map]. rewrite IH, app_nil_r.
  destruct e; try reflexivity. destruct He.
Qed.

Lemma no_creation_none_created (added : Trace) :
  Forall not_a_creation added -> created added = [].
Proof.
  induction 1 as [|e l He Hl IH]; [reflexivity|].
  unfold created in *. cbn [flat_map]. rewrite IH, app_nil_r.
  destruct e; try reflexivity. destruct He.
Qed.

(** A [forEach] with effects keeps what each of its steps keeps. *)
Lemma forEachM_emits {S A} (P : Event -> Prop) (I : S -> Prop)
  (iteratee : S -> A -> M S) (l : list A) :
  (forall s x t, I s ->
     exists added,
       snd (iteratee s x t) = (t ++ added)%list /\ Forall P added /\
       forall s', fst (iteratee s x t) = Ok s' -> I s') ->
  forall s t, I s ->
    exists added,
      snd (forEachM iteratee l s t) = (t ++ added)%list /\ Forall P added /\
      forall s', fst (forEachM iteratee l s t) = Ok s' -> I s'.
Proof.
  intros Hstep. induction l as [|x l IH]; intros s t Hs.
  - exists []. cbn. rewrite app_nil_r. split; [reflexivity|]. split; [constructor|].
    intros s' [= <-]. exact Hs.
  - cbn [forEachM]. unfold bindM.
    destruct (Hstep s x t Hs) as (added & E & F & Hi).
    destruct (iteratee s x t) as [[s1|e] t1]; cbn [fst snd] in *; subst t1.
    + destruct (IH s1 (t ++ added)%list (Hi s1 eq_refl)) as (more & E' & F' & Hi').
      exists (added ++ more)%list. rewrite E', <- app_assoc.
      split; [reflexivity|]. split; [apply Forall_app; auto|exact Hi'].
    + exists added. split; [reflexivity|]. split; [assumption|discriminate].
Qed.

(** The loop over the resources only logs, and collects calls of
    [createInitialQueue]. *)
Lemma provisioning_loop
  (this : ServerlessOfflineSQS) (world : World) (Resources : JsVal)
  (resouces : list string) (t : Trace) :
  exists added,
    snd (forEachM
           (fun promises resourceName =>
              resource <~ lift (get Resources resourceName) ;
              type <~ lift (get resource "Type") ;
              if is_string "AWS::SQS::Queue" type then
                emit (Log (CreatingQueue resourceName)) ;;
                Properties <~ lift (get resource "Properties") ;
                ret (promises ++ [createInitialQueue this world Properties])%list
              else ret promises)
           resouces [] t) = (t ++ added)%list /\
    Forall (fun e => not_a_start e /\ not_a_creation e) added /\
    forall collected,
      fst (forEachM
             (fun promises resourceName =>
                resource <~ lift (get Resources resourceName) ;
                type <~ lift (get resource "Type") ;
                if is_string "AWS::SQS::Queue" type then
                  emit (Log (CreatingQueue resourceName)) ;;
                  Properties <~ lift (get resource "Properties") ;
                  ret (promises ++ [createInitialQueue this world Properties])%list
                else ret promises)
             resouces [] t) = Ok collected ->
      Forall (emits provisioning_event) collected.
Proof.
  apply (forEachM_emits (fun e => not_a_start e /\ not_a_creation e)
           (Forall (emits provisioning_event))); [|constructor].
  intros promises r t0 Hp. unfold bindM, lift, emit, ret.
  destruct (get Resources r) as [resource|e].
  2:{ exists []. cbn. rewrite app_nil_r. repeat split; [constructor|discriminate]. }
  destruct (get resource "Type") as [type|e].
  2:{ exists []. cbn. rewrite app_nil_r. repeat split; [constructor|discriminate]. }
  destruct (is_string "AWS::SQS::Queue" type).
  - destruct (get resource "Properties") as [Properties|e].
    + exists [Log (CreatingQueue r)]. cbn. split; [reflexivity|].
      split; [repeat constructor|]. intros s' [= <-].
      apply Forall_app. split; [assumption|].
      constructor; [apply emits_createInitialQueue|constructor].
    + exists [Log (CreatingQueue r)]. cbn. split; [reflexivity|].
      split; [repeat constructor|discriminate].
  - exists []. cbn. rewrite app_nil_r. split; [reflexivity|].
    split; [constructor|]. intros s' [= <-]. exact Hp.
Qed.

Lemma bindM_run {A B} (m : M A) (k : A -> M B) (t : Trace) :
  bindM m k t
  = match m t with
    | (Ok a, t') => k a t'
    | (Throw e, t') => (Throw e, t')
    end.
Proof. reflexivity. Qed.

(** Provisioning, lines 219-236: what it adds to the trace starts no
    poller, and is nothing at all without [resources.Resources]. *)
Lemma provisioning_phase
  (this : ServerlessOfflineSQS) (world : World) (t : Trace) :
  exists added,
    snd ((let Resources :=
            and_get (and_get (service this) "resources") "Resources" in
          if truthy Resources then
            resouces <~ lift (keys Resources) ;
            promises <~ forEachM
              (fun promises resourceName =>
                 resource <~ lift (get Resources resourceName) ;
                 type <~ lift (get resource "Type") ;
                 if is_string "AWS::SQS::Queue" type then
                   emit (Log (CreatingQueue resourceName)) ;;
                   Properties <~ lift (get resource "Properties") ;
                   ret (promises ++ [createInitialQueue this world Properties])%list
                 else ret promises)
              resouces [] ;
            Promise_all promises ;;
            emit (Log BlankLine)
          else ret tt) t) = (t ++ added)%list /\
    Forall not_a_start added /\
    (truthy (and_get (and_get (service this) "resources") "Resources") = false ->
     added = []).
Proof.
  cbv zeta.
  destruct (truthy (and_get (and_get (service this) "resources") "Resources")).
  2:{ exists []. cbn. rewrite app_nil_r. auto. }
  rewrite bindM_run. unfold lift at 1.
  destruct (keys _) as [resouces|e].
  2:{ exists []. cbn. rewrite app_nil_r. split; [reflexivity|].
      split; [constructor|discriminate]. }
  rewrite bindM_run.
  destruct (provisioning_loop this world
              (and_get (and_get (service this) "resources") "Resources")
              resouces t) as (added1 & E1 & F1 & C1).
  destruct (forEachM _ resouces [] t) as [[promises|e] t1]; cbn [fst snd] in *;
    subst t1.
  2:{ exists added1. split; [reflexivity|]. split; [|discriminate].
      eapply Forall_impl; [|exact F1]. now intros ? []. }
  rewrite bindM_run.
  destruct (emits_Promise_all provisioning_event promises (C1 promises eq_refl)
              (t ++ added1)%list) as (added2 & E2 & F2).
  assert (F2' : Forall not_a_start added2).
  { eapply Forall_impl; [|exact F2]. intros [] H; try exact I; destruct H. }
  assert (F1' : Forall not_a_start added1).
  { eapply Forall_impl; [|exact F1]. now intros ? []. }
  destruct (Promise_all promises (t ++ added1)%list) as [[settled|e] t2];
    cbn [fst snd] in *; subst t2.
  - exists (added1 ++ added2 ++ [Log BlankLine])%list. unfold emit. cbn [snd].
    rewrite <- !app_assoc. split; [reflexivity|]. split; [|discriminate].
    repeat (apply Forall_app; split); try assumption. repeat constructor.
  - exists (added1 ++ added2)%list. rewrite <- app_assoc.
    split; [reflexivity|]. split; [|discriminate]. apply Forall_app. auto.
Qed.

Lemma start_pollers (functionName : string) (queues : list JsVal) (t : Trace) :
  forEachM (fun _ queueEvent => emit (PollerStarted functionName queueEvent))
    queues tt t
  = (Ok tt, (t ++ map (PollerStarted functionName) queues)%list).
Proof.
  revert t. induction queues as [|q qs IH]; intros t.
  - cbn. now rewrite app_nil_r.
  - cbn [forEachM map]. rewrite bindM_run. unfold emit at 1. rewrite IH.
    now rewrite <- app_assoc.
Qed.

Lemma pollers_started (functionName : string) (queues : list JsVal) :
  pollers (map (PollerStarted functionName) queues)
  = map (pair functionName) queues /\
  created (map (PollerStarted functionName) queues) = [].
Proof.
  unfold pollers, created. induction queues as [|q qs [IHp IHc]]; [auto|].
  cbn [map flat_map app]. now rewrite IHp, IHc.
Qed.

(** Starting the pollers, lines 240-255: one start per function and sqs
    trigger, in order, and no failure. *)
Lemma starting_phase (functions : list (string * JsVal)) (t : Trace) :
  exists added,
    forEachM
      (fun _ entry =>
         let functionName := fst entry in
         let queues :=
           map (lodash_get "sqs")
             (filter (has "sqs")
                (map snd (entries (lodash_get "events" (snd entry))))) in
         let isEmpty := match queues with [] => true | _ => false end in
         (if negb isEmpty
          then emit (Log BlankLine) ;; emit (Log (SqsFor functionName))
          else ret tt) ;;
         forEachM (fun _ queueEvent => emit (PollerStarted functionName queueEvent))
           queues tt ;;
         (if negb isEmpty then emit (Log BlankLine) else ret tt))
      functions tt t = (Ok tt, (t ++ added)%list) /\
    pollers added
    = flat_map (fun entry => map (pair (fst entry)) (sqs_triggers (snd entry)))
        functions /\
    created added = [].
Proof.
  match goal with
  | |- context [forEachM ?F functions tt t] => set (start := F)
  end.
  assert (Hstep : forall f body t0,
             start tt (f, body) t0
             = (Ok tt,
                (t0 ++ match sqs_triggers body with
                       | [] => []
                       | queues =>
                           [Log BlankLine; Log (SqsFor f)]
                             ++ map (PollerStarted f) queues ++ [Log BlankLine]
                       end)%list)).
  { intros f body t0. unfold start. cbv zeta. cbn [fst snd].
    fold (sqs_triggers body). destruct (sqs_triggers body) as [|q qs].
    - cbn. now rewrite app_nil_r.
    - cbn [negb]. rewrite !bindM_run. unfold emit at 1. unfold emit at 1.
      rewrite bindM_run, start_pollers. unfold emit.
      rewrite <- !app_assoc. reflexivity. }
  clearbody start. revert t.
  induction functions as [|[f body] fs IH]; intros t.
  - exists []. cbn. rewrite app_nil_r. auto.
  - cbn [forEachM]. rewrite bindM_run, Hstep.
    match goal with
    | |- context [forEachM start fs tt ?t'] =>
        destruct (IH t') as (added & E & P & C)
    end.
    rewrite E. eexists. rewrite <- app_assoc. split; [reflexivity|].
    rewrite pollers_app, created_app, P, C. cbn [flat_map fst snd].
    destruct (pollers_started f (sqs_triggers body)) as [Hp Hc].
    destruct (sqs_triggers body) as [|q qs]; [auto|].
    change ([Log BlankLine; Log (SqsFor f)]
              ++ map (PollerStarted f) (q :: qs) ++ [Log BlankLine])%list
      with ([Log BlankLine; Log (SqsFor f)]
              ++ (map (PollerStarted f) (q :: qs) ++ [Log BlankLine]))%list.
    rewrite !pollers_app, !created_app, Hp, Hc. cbn. rewrite app_nil_r. auto.
Qed.

Ltac flatten_trace :=
  repeat first [rewrite <- app_assoc | progress (cbn [app])].

Lemma emit_run (e : Event) (t : Trace) : emit e t = (Ok tt, (t ++ [e])%list).
Proof. reflexivity. Qed.

Lemma lift_run {A} (r : result A) (t : Trace) : lift r t = (r, t).
Proof. reflexivity. Qed.

(** [offlineStartInit] in two phases: provisioning, in which no poller
    is started, and then, unless it has failed by then, the starts of
    the pollers, in which no queue is created. *)
Lemma offlineStartInit_phases
  (this : ServerlessOfflineSQS) (world : World) (t : Trace) :
  exists provisioning starting,
    snd (offlineStartInit this world t) = (t ++ provisioning ++ starting)%list /\
    pollers provisioning = [] /\
    created starting = [] /\
    (truthy (and_get (and_get (service this) "resources") "Resources") = false ->
     created provisioning = []) /\
    match fst (offlineStartInit this world t) with
    | Ok _ =>
        exists functions,
          get (service this) "functions" = Ok functions /\
          pollers starting
          = flat_map (fun entry => map (pair (fst entry)) (sqs_triggers (snd entry)))
              (entries functions)
    | Throw _ => starting = []
    end.
Proof.
  unfold offlineStartInit. rewrite bindM_run, emit_run. cbv beta iota.
  rewrite bindM_run.
  destruct (provisioning_phase this world (t ++ [Log CreatingQueues])%list)
    as (added & E & F & Z).
  match type of E with
  | snd ?x = _ => destruct x as [[u|e] t1]
  end; cbn [fst snd] in E; subst t1.
  - rewrite bindM_run, emit_run. cbv beta iota. rewrite bindM_run, lift_run.
    destruct (get (service this) "functions") as [functions|e].
    + destruct (starting_phase (entries functions)
                  (((t ++ [Log CreatingQueues]) ++ added) ++ [Log StartingKinesis])%list)
        as (started & Es & Ps & Cs).
      cbv zeta in Es. rewrite Es. cbn [fst snd].
      exists (Log CreatingQueues :: added ++ [Log StartingKinesis])%list, started.
      split; [flatten_trace; reflexivity|].
      split; [|split; [assumption|split]].
      * change (Log CreatingQueues :: added ++ [Log StartingKinesis])%list
          with ([Log CreatingQueues] ++ added ++ [Log StartingKinesis])%list.
        rewrite !pollers_app, (no_start_no_poller _ F). reflexivity.
      * intros T. rewrite (Z T). reflexivity.
      * exists functions. auto.
    + cbn [fst snd].
      exists (Log CreatingQueues :: added ++ [Log StartingKinesis])%list, [].
      split; [rewrite app_nil_r; flatten_trace; reflexivity|]. split; [|split; [reflexivity|split]].
      * change (Log CreatingQueues :: added ++ [Log StartingKinesis])%list
          with ([Log CreatingQueues] ++ added ++ [Log StartingKinesis])%list.
        rewrite !pollers_app, (no_start_no_poller _ F). reflexivity.
      * intros T. rewrite (Z T). reflexivity.
      * reflexivity.
  - cbn [fst snd]. exists (Log CreatingQueues :: added), [].
    split; [rewrite app_nil_r; flatten_trace; reflexivity|]. split; [|split; [reflexivity|split]].
    + change (Log CreatingQueues :: added) with ([Log CreatingQueues] ++ added)%list.
      rewrite pollers_app, (no_start_no_poller _ F). reflexivity.
    + intros T. rewrite (Z T). reflexivity.
    + reflexivity.
Qed.

(** X20: when [offlineStartInit] rejects -- a queue resource that cannot
    be read, a [createQueue] promise that rejects, a service without
    functions to read -- it has started no poller. *)
Theorem offlineStartInit_rejected_starts_nothing
  (this : ServerlessOfflineSQS) (world : World) (t : Trace) (e : JsError) :
  fst (offlineStartInit this world t) = Throw e ->
  pollers (snd (offlineStartInit this world t)) = pollers t.
Proof.
  intros H.
  destruct (offlineStartInit_phases this world t)
    as (provisioning & starting & E & P & _ & _ & R).
  rewrite H in R. subst starting.
  rewrite E, app_nil_r, pollers_app, P. apply app_nil_r.
Qed.

Lemma offlineStartInit_rejected_starts_nothing_witness :
  pollers (snd (offlineStartInit Sample.plugin Sample.refusing_world []))
  = pollers [].
Proof.
  apply (offlineStartInit_rejected_starts_nothing Sample.plugin
           Sample.refusing_world [] (Error "connect ECONNREFUSED")).
  reflexivity.
Defined.

(** X21: when [offlineStartInit] succeeds it has started one poller for
    each sqs trigger of each function, in the order of the manifest, and
    none for an event that is not an sqs trigger or a function without
    events. *)
Theorem offlineStartInit_starts_every_trigger
  (this : ServerlessOfflineSQS) (world : World) (t : Trace) :
  fst (offlineStartInit this world t) = Ok tt ->
  exists functions,
    get (service this) "functions" = Ok functions /\
    pollers (snd (offlineStartInit this world t))
    = (pollers t
         ++ flat_map (fun entry => map (pair (fst entry)) (sqs_triggers (snd entry)))
              (entries functions))%list.
Proof.
  intros H.
  destruct (offlineStartInit_phases this world t)
    as (provisioning & starting & E & P & _ & _ & R).
  rewrite H in R. destruct R as (functions & G & S).
  exists functions. split; [assumption|].
  rewrite E, !pollers_app, P, S. reflexivity.
Qed.

Lemma offlineStartInit_starts_every_trigger_witness :
  exists functions,
    get (service More.bare) "functions" = Ok functions /\
    [("first", Sample.by_arn); ("first", Sample.by_queueName);
     ("third", JStr Sample.orders_arn)]
    = (pollers []
         ++ flat_map (fun entry => map (pair (fst entry)) (sqs_triggers (snd entry)))
              (entries functions))%list.
Proof.
  apply (offlineStartInit_starts_every_trigger More.bare Sample.refusing_world []).
  reflexivity.
Defined.

(** X22: [offlineStartInit] provisions first and starts pollers after:
    every [createQueue] call it makes comes before every start of a
    poller; and without [resources.Resources] in the service it makes no
    [createQueue] call at all. *)
Theorem offlineStartInit_provisions_first
  (this : ServerlessOfflineSQS) (world : World) (t : Trace) :
  (exists provisioning starting,
      snd (offlineStartInit this world t) = (t ++ provisioning ++ starting)%list /\
      pollers provisioning = [] /\
      created starting = []) /\
  (truthy (and_get (and_get (service this) "resources") "Resources") = false ->
   created (snd (offlineStartInit this world t)) = created t).
Proof.
  destruct (offlineStartInit_phases this world t)
    as (provisioning & starting & E & P & C & Z & _).
  split; [exists provisioning, starting; auto|].
  intros T. rewrite E, !created_app, (Z T), C. now rewrite !app_nil_r.
Qed.

(** With a client at hand [createInitialQueue] requests the queue
    exactly when its parameters can be built. *)
Lemma createInitialQueue_created
  (this : ServerlessOfflineSQS) (world : World) (queue client : JsVal) (t : Trace) :
  getClient this = Ok client ->
  created (snd (createInitialQueue this world queue t))
  = (created t ++ requested [queue])%list.
Proof.
  intros Hclient. unfold createInitialQueue, requested.
  rewrite bindM_run, lift_run, Hclient. cbv beta iota.
  rewrite bindM_run, lift_run. cbn [flat_map].
  destruct (createInitialQueue_params queue) as [params|e]; cbv beta iota.
  - rewrite bindM_run. unfold call at 1. cbv beta iota.
    destruct (sqs_createQueue world client t params) as [error|promise].
    + rewrite bindM_run, emit_run. cbn [snd ret].
      rewrite !created_app. cbn. now rewrite ?app_nil_r.
    + rewrite lift_run. cbn [snd]. rewrite !created_app. cbn. now rewrite ?app_nil_r.
  - cbn [snd]. now rewrite ?app_nil_r.
Qed.

Lemma requested_app (l l' : list JsVal) :
  requested (l ++ l')%list = (requested l ++ requested l')%list.
Proof. apply flat_map_app. Qed.

(** All the queues are requested, whatever becomes of the requests. *)
Lemma settle_all_created
  (this : ServerlessOfflineSQS) (world : World) (client : JsVal)
  (queues : list JsVal) (t : Trace) :
  getClient this = Ok client ->
  created (snd (settle_all (map (createInitialQueue this world) queues) t))
  = (created t ++ requested queues)%list.
Proof.
  intros Hclient. revert t. induction queues as [|q qs IH]; intros t.
  - cbn. now rewrite app_nil_r.
  - cbn [map settle_all].
    pose proof (createInitialQueue_created this world q client t Hclient) as Hq.
    destruct (createInitialQueue this world q t) as [r t1]. cbn [snd] in Hq.
    specialize (IH t1).
    destruct (settle_all (map (createInitialQueue this world) qs) t1) as [rs t2].
    cbn [snd] in *. rewrite IH, Hq, <- app_assoc.
    change (q :: qs) with ([q] ++ qs)%list. now rewrite requested_app.
Qed.

(** The loop over a catalog of objects collects one call of
    [createInitialQueue] per queue resource and creates nothing yet. *)
Lemma provisioning_loop_collects
  (this : ServerlessOfflineSQS) (world : World) (catalog : list (string * JsVal)) :
  NoDup (map fst catalog) ->
  (forall name resource,
      In (name, resource) catalog -> resource <> JUndefined /\ resource <> JNull) ->
  forall (suffix : list (string * JsVal)) (promises : list (M JsVal)) (t : Trace),
    (forall entry, In entry suffix -> In entry catalog) ->
    exists logs,
      forEachM
        (fun promises resourceName =>
           resource <~ lift (get (JObj catalog) resourceName) ;
           type <~ lift (get resource "Type") ;
           if is_string "AWS::SQS::Queue" type then
             emit (Log (CreatingQueue resourceName)) ;;
             Properties <~ lift (get resource "Properties") ;
             ret (promises ++ [createInitialQueue this world Properties])%list
           else ret promises)
        (map fst suffix) promises t
      = (Ok (promises
               ++ map (createInitialQueue this world) (queue_definitions suffix))%list,
         (t ++ logs)%list) /\
      created logs = [].
Proof.
  intros ND Hobj.
  match goal with
  | |- context [forEachM ?F _ _ _] => set (loop := F)
  end.
  assert (Hstep : forall promises name resource t,
             In (name, resource) catalog ->
             loop promises name t
             = if is_string "AWS::SQS::Queue" (lodash_get "Type" resource)
               then (Ok (promises
                           ++ [createInitialQueue this world
                                 (lodash_get "Properties" resource)])%list,
                     (t ++ [Log (CreatingQueue name)])%list)
               else (Ok promises, t)).
  { intros promises name resource t I. unfold loop, lodash_get.
    destruct (Hobj name resource I) as [U N].
    assert (Hg : get (JObj catalog) name = Ok resource)
      by (cbn [get]; now rewrite (assoc_in catalog name resource ND I)).
    destruct (get_defined resource "Type" U N) as [type Ht].
    destruct (get_defined resource "Properties" U N) as [Properties Hp].
    rewrite bindM_run, lift_run, Hg. cbv beta iota.
    rewrite bindM_run, lift_run, Ht. cbv beta iota.
    destruct (is_string "AWS::SQS::Queue" type); [|reflexivity].
    rewrite bindM_run, emit_run. cbv beta iota.
    rewrite bindM_run, lift_run, Hp. reflexivity. }
  clearbody loop.
  induction suffix as [|[name resource] suffix IH]; intros promises t Hin.
  - exists []. cbn. now rewrite !app_nil_r.
  - cbn [map fst forEachM]. rewrite bindM_run.
    rewrite (Hstep promises name resource t) by (apply Hin; now left).
    unfold queue_definitions. cbn [flat_map snd]. fold (queue_definitions suffix).
    destruct (is_string "AWS::SQS::Queue" (lodash_get "Type" resource)).
    + destruct (IH (promises
                      ++ [createInitialQueue this world
                            (lodash_get "Properties" resource)])%list
                  (t ++ [Log (CreatingQueue name)])%list
                  (fun entry H => Hin entry (or_intror H))) as (logs & E & C).
      rewrite E. exists (Log (CreatingQueue name) :: logs).
      cbn [map app]. rewrite <- !app_assoc. cbn [app]. split; [reflexivity|].
      unfold created in *. cbn [flat_map app]. exact C.
    + destruct (IH promises t (fun entry H => Hin entry (or_intror H)))
        as (logs & E & C).
      rewrite E. exists logs. cbn [app]. auto.
Qed.

(** X23: with a client at hand and a catalog of resources that are
    objects, [offlineStartInit] makes one [createQueue] call for every
    resource of type [AWS::SQS::Queue] whose parameters can be built, in
    the order of the catalog, and none for any other resource --
    whatever the backend answers to the calls, an earlier rejection
    included. *)
Theorem offlineStartInit_requests_every_queue
  (this : ServerlessOfflineSQS) (world : World) (t : Trace)
  (catalog : list (string * JsVal)) (client : JsVal) :
  and_get (and_get (service this) "resources") "Resources" = JObj catalog ->
  NoDup (map fst catalog) ->
  (forall name resource,
      In (name, resource) catalog -> resource <> JUndefined /\ resource <> JNull) ->
  getClient this = Ok client ->
  created (snd (offlineStartInit this world t))
  = (created t ++ requested (queue_definitions catalog))%list.
Proof.
  intros HR ND Hobj Hclient. unfold offlineStartInit.
  rewrite bindM_run, emit_run. cbv beta iota. rewrite bindM_run. cbv zeta.
  rewrite HR. cbn [truthy keys]. rewrite bindM_run, lift_run. cbv beta iota.
  rewrite bindM_run.
  destruct (provisioning_loop_collects this world catalog ND Hobj catalog []
              (t ++ [Log CreatingQueues])%list (fun _ H => H)) as (logs & E & C).
  rewrite E. cbv beta iota. cbn [app]. rewrite bindM_run.
  pose proof (settle_all_created this world client (queue_definitions catalog)
                ((t ++ [Log CreatingQueues]) ++ logs)%list Hclient) as Hs.
  unfold Promise_all.
  destruct (settle_all _ ((t ++ [Log CreatingQueues]) ++ logs)%list) as [settled t1].
  cbn [snd] in Hs.
  assert (Ht1 : created t1 = (created t ++ requested (queue_definitions catalog))%list).
  { rewrite Hs, !created_app, C. cbn. now rewrite ?app_nil_r. }
  destruct (all_fulfilled settled) as [values|e]; cbv beta iota; [|exact Ht1].
  rewrite emit_run. cbv beta iota. rewrite bindM_run, emit_run. cbv beta iota.
  rewrite bindM_run, lift_run.
  destruct (get (service this) "functions") as [functions|e]; cbv beta iota.
  - destruct (starting_phase (entries functions)
                ((t1 ++ [Log BlankLine]) ++ [Log StartingKinesis])%list)
      as (started & Es & _ & Cs).
    cbv zeta in Es. rewrite Es. cbn [snd].
    rewrite !created_app, Cs, Ht1. cbn. now rewrite ?app_nil_r.
  - cbn [snd]. rewrite !created_app, Ht1. cbn. now rewrite ?app_nil_r.
Qed.

Lemma offlineStartInit_requests_every_queue_witness :
  created (snd (offlineStartInit Sample.plugin Sample.refusing_world []))
  = (created []
       ++ requested
            (queue_definitions
               [("Orders", JObj [("Type", JStr "AWS::SQS::Queue");
                                 ("Properties", Sample.orders_properties)]);
                ("DLQ", JObj [("Type", JStr "AWS::SQS::Queue");
                              ("Properties", JObj [("QueueName", JStr "dead")])]);
                ("Table", JObj [("Type", JStr "AWS::DynamoDB::Table")])]))%list.
Proof.
  apply (offlineStartInit_requests_every_queue Sample.plugin Sample.refusing_world []
           _ (JObj [("region", JStr "eu-west-1")])).
  - reflexivity.
  - repeat constructor; simpl; intuition discriminate.
  - intros name resource [E|[E|[E|[]]]]; injection E as _ <-; split; discriminate.
  - reflexivity.
Defined.

(** ** What the loop does not depend on *)

(** X24: the run of the loop does not depend on what the backend answers
    to a delete call (the callback of line 205 drops the answer), nor on
    anything else than the answers to the receive calls and the
    behaviour of the handler. *)
Theorem next_ignores_delete_answers
  (this : ServerlessOfflineSQS) (world world' : World) (functionName : string)
  (queueEvent client QueueUrl : JsVal) (fuel : nat) (t : Trace) :
  (forall c h p, sqs_receiveMessage world c h p = sqs_receiveMessage world' c h p) ->
  (forall h f event, handler world h f event = handler world' h f event) ->
  next this world functionName queueEvent client QueueUrl fuel t
  = next this world' functionName queueEvent client QueueUrl fuel t.
Proof.
  intros Hr Hh. revert t. induction fuel as [|fuel IH]; intros t; [reflexivity|].
  rewrite !next_iteration.
  destruct (get queueEvent "batchSize") as [batchSize|e]; [|reflexivity].
  cbv zeta. rewrite Hr.
  destruct (sqs_receiveMessage world' client t _) as [[err|] data]; [reflexivity|].
  destruct (ReceiveMessage.Messages data) as [Messages|]; [|apply IH].
  unfold fromCallback, bindM. rewrite !eventHandler_batch.
  destruct (getQueueName this queueEvent); [|reflexivity].
  destruct (eventHandler_event queueEvent Messages) as [event|]; [|reflexivity].
  cbv zeta. rewrite Hh.
  destruct (handler world' _ functionName event) as [e|[res|e]|[e|] d];
    cbn [fst snd ret throw]; try reflexivity; apply IH.
Qed.

Lemma next_ignores_delete_answers_witness :
  Sample.poll (Some Sample.batch) Sample.success 3
  = next Sample.plugin
      {| sqs_createQueue := sqs_createQueue Sample.refusing_world;
         sqs_getQueueUrl := sqs_getQueueUrl More.lost_world;
         sqs_receiveMessage :=
           fun _ _ _ => (None, {| ReceiveMessage.Messages := Some Sample.batch |});
         sqs_deleteMessageBatch := fun _ _ _ => (None, JNull);
         handler := fun _ _ _ => Sample.success |}
      "worker" Sample.by_arn Sample.client Sample.url 3 [].
Proof.
  apply (next_ignores_delete_answers Sample.plugin
           (Sample.world (Some Sample.batch) Sample.success)); reflexivity.
Defined.
